(** * Token-level DPO (TDPO): sequence aligner and the two loss variants

    A shallow embedding of [feature_alignment/model/tdpo.py].

    Float tensors are idealised: an entry is a real number (the value the
    forward pass computes) paired with a tangent (what autograd would
    propagate along one fixed direction of the inputs).  [detach] and
    [torch.no_grad] zero the tangent and leave the value alone.  Rounding,
    overflow and underflow are outside this model; the only non-finite
    results it knows are the quotients by a zero count.  What it proves of
    values is proved in exact arithmetic.

    [Float] is a second model of the aligner and of the V1 loss, on floats
    with their infinities, NaN and bounded range: it shows where the code
    leaves exact arithmetic. *)

From Stdlib Require Import Reals Lra Lia List ZArith Bool.
From Stdlib Require String.
Import ListNotations.
Import String.StringSyntax.
Delimit Scope string_scope with string.

Local Open Scope R_scope.

(** ** Tracked scalars *)

Module Dual.

Record dual : Type := mk { primal : R; tangent : R }.

Definition const (c : R) : dual := mk c 0.
Definition zero : dual := const 0.
Definition add (x y : dual) : dual :=
  mk (primal x + primal y) (tangent x + tangent y).
Definition sub (x y : dual) : dual :=
  mk (primal x - primal y) (tangent x - tangent y).
Definition neg (x : dual) : dual := mk (- primal x) (- tangent x).
Definition mul (x y : dual) : dual :=
  mk (primal x * primal y) (tangent x * primal y + primal x * tangent y).
Definition div (x y : dual) : dual :=
  mk (primal x / primal y)
     ((tangent x * primal y - primal x * tangent y) / (primal y * primal y)).
(** A python float times a tensor entry. *)
Definition scale (c : R) (x : dual) : dual := mul (const c) x.
Definition dexp (x : dual) : dual :=
  mk (exp (primal x)) (exp (primal x) * tangent x).
Definition dlog (x : dual) : dual :=
  mk (ln (primal x)) (tangent x / primal x).

(** [Tensor.detach()]: same value, cut off from the graph. *)
Definition detach (x : dual) : dual := const (primal x).

End Dual.

Import Dual.

(** ** Log-sigmoid *)

Definition sigmoid (x : R) : R := 1 / (1 + exp (- x)).

(** [F.logsigmoid]: log (1 / (1 + exp (-x))), the exact function; on floats
    it saturates to 0 for large arguments ([Float.logsigmoid]). *)
Definition logsigmoid (x : R) : R := ln (sigmoid x).

Definition dlogsigmoid (x : dual) : dual :=
  mk (logsigmoid (primal x)) ((1 - sigmoid (primal x)) * tangent x).

(** ** Errors *)

Inductive exn : Type :=
| AssertionError
| RuntimeError.

Definition result (A : Type) : Type := (exn + A)%type.

Definition ret {A : Type} (a : A) : result A := inr a.
Definition raise {A : Type} (e : exn) : result A := inl e.
Definition bind {A B : Type} (m : result A) (k : A -> result B) : result B :=
  match m with
  | inl e => inl e
  | inr a => k a
  end.

Notation "x <- m ;; k" := (bind m (fun x => k))
  (at level 61, m at next level, right associativity).
Notation "' p <- m ;; k" := (bind m (fun x => match x with p => k end))
  (at level 61, p pattern, m at next level, right associativity).

(** ** One-dimensional tensors

    A tensor of shape (n,) is a list of [n] entries.  A binary elementwise
    operation broadcasts a size-one operand and raises on any other size
    mismatch. *)

Definition vec : Type := list dual.

Fixpoint zip_with {A B C : Type} (f : A -> B -> C) (xs : list A) (ys : list B)
  : list C :=
  match xs, ys with
  | x :: xs', y :: ys' => f x y :: zip_with f xs' ys'
  | _, _ => []
  end.

Definition broadcast2 {A B C : Type} (f : A -> B -> C)
  (xs : list A) (ys : list B) : result (list C) :=
  if Nat.eqb (length xs) (length ys) then ret (zip_with f xs ys)
  else match xs, ys with
       | [x], _ => ret (map (f x) ys)
       | _, [y] => ret (map (fun x => f x y) xs)
       | _, _ => raise RuntimeError
       end.

Definition vadd : vec -> vec -> result vec := broadcast2 add.
Definition vsub : vec -> vec -> result vec := broadcast2 sub.
Definition vscale (c : R) (v : vec) : vec := map (scale c) v.
Definition vneg (v : vec) : vec := map neg v.
Definition vdetach (v : vec) : vec := map detach v.
Definition vlogsigmoid (v : vec) : vec := map dlogsigmoid v.

(** ** Configuration *)

Module Config.

(** [config.loss]. *)
Record loss : Type := { beta : R; alpha : R }.

End Config.

(** ** The two loss variants *)

(** [TDPO1Model.loss]. *)
Definition loss1 (cfg : Config.loss)
  (chosen_logps_margin rejected_logps_margin
   chosen_position_kl rejected_position_kl : vec)
  : result (vec * vec * vec) :=
  chosen_values <- vadd chosen_logps_margin chosen_position_kl ;;
  rejected_values <- vadd rejected_logps_margin rejected_position_kl ;;
  chosen_rejected_logps_margin <-
    vsub chosen_logps_margin rejected_logps_margin ;;
  kl_diff <- vsub rejected_position_kl chosen_position_kl ;;
  logits <- vsub chosen_rejected_logps_margin kl_diff ;;
  let beta := Config.beta cfg in
  let losses := vneg (vlogsigmoid (vscale beta logits)) in
  let chosen_rewards := vscale (Config.beta cfg) (vdetach chosen_values) in
  let rejected_rewards := vscale beta (vdetach rejected_values) in
  ret (losses, chosen_rewards, rejected_rewards).

(** [TDPO2Model.loss]. *)
Definition loss2 (cfg : Config.loss)
  (chosen_logps_margin rejected_logps_margin
   chosen_position_kl rejected_position_kl : vec)
  : result (vec * vec * vec) :=
  chosen_values <- vadd chosen_logps_margin chosen_position_kl ;;
  rejected_values <- vadd rejected_logps_margin rejected_position_kl ;;
  chosen_rejected_logps_margin <-
    vsub chosen_logps_margin rejected_logps_margin ;;
  let alpha := Config.alpha cfg in
  let beta := Config.beta cfg in
  kl_diff <- vsub rejected_position_kl (vdetach chosen_position_kl) ;;
  logits <- vsub chosen_rejected_logps_margin (vscale alpha kl_diff) ;;
  let losses := vneg (vlogsigmoid (vscale beta logits)) in
  let chosen_rewards := vscale beta (vdetach chosen_values) in
  let rejected_rewards := vscale beta (vdetach rejected_values) in
  ret (losses, chosen_rewards, rejected_rewards).

(** ** Sums over an index range *)

(** [dsum n f] = f 0 + ... + f (n-1), the reduction [.sum(-1)] over a
    dimension of size [n]. *)
Fixpoint dsum (n : nat) (f : nat -> dual) : dual :=
  match n with
  | O => zero
  | S k => add (dsum k f) (f k)
  end.

(** Number of [True] entries, the reduction [.sum(-1)] of a boolean mask. *)
Fixpoint count (n : nat) (f : nat -> bool) : Z :=
  match n with
  | O => 0%Z
  | S k => (count k f + (if f k then 1 else 0))%Z
  end.

(** ** Two- and three-dimensional tensors

    A tensor is its shape together with its entries, read by index.  Only
    the entries inside the shape are meaningful. *)

Module T2.

Record t (A : Type) : Type := mk { d0 : nat; d1 : nat; at_ : nat -> nat -> A }.
Arguments mk {A} _ _ _.
Arguments d0 {A} _.
Arguments d1 {A} _.
Arguments at_ {A} _ _ _.

Definition shape {A : Type} (x : t A) : nat * nat := (d0 x, d1 x).

Definition map {A B : Type} (f : A -> B) (x : t A) : t B :=
  mk (d0 x) (d1 x) (fun b i => f (at_ x b i)).

(** [x[:, 1:]]. *)
Definition tail1 {A : Type} (x : t A) : t A :=
  mk (d0 x) (d1 x - 1) (fun b i => at_ x b (S i)).

End T2.

Module T3.

Record t (A : Type) : Type :=
  mk { d0 : nat; d1 : nat; d2 : nat; at_ : nat -> nat -> nat -> A }.
Arguments mk {A} _ _ _ _.
Arguments d0 {A} _.
Arguments d1 {A} _.
Arguments d2 {A} _.
Arguments at_ {A} _ _ _ _.

(** [x.shape[:-1]]. *)
Definition shape_init {A : Type} (x : t A) : nat * nat := (d0 x, d1 x).

Definition map {A B : Type} (f : A -> B) (x : t A) : t B :=
  mk (d0 x) (d1 x) (d2 x) (fun b i v => f (at_ x b i v)).

(** [x[:, :-1, :]]. *)
Definition init1 {A : Type} (x : t A) : t A :=
  mk (d0 x) (d1 x - 1) (d2 x) (at_ x).

(** [x.sum(-1)]. *)
Definition sum_last (x : t dual) : T2.t dual :=
  T2.mk (d0 x) (d1 x) (fun b i => dsum (d2 x) (at_ x b i)).

End T3.

(** *** Broadcasting *)

(** The size two dimensions broadcast to, when they are compatible. *)
Definition bdim (n m : nat) : option nat :=
  if Nat.eqb n m then Some n
  else if Nat.eqb n 1 then Some m
  else if Nat.eqb m 1 then Some n
  else None.

(** A dimension of size one is read at index 0 whatever the index. *)
Definition bidx (n i : nat) : nat := if Nat.eqb n 1 then O else i.

Definition map2_2 {A B C : Type} (f : A -> B -> C)
  (x : T2.t A) (y : T2.t B) : result (T2.t C) :=
  match bdim (T2.d0 x) (T2.d0 y), bdim (T2.d1 x) (T2.d1 y) with
  | Some n0, Some n1 =>
      ret (T2.mk n0 n1 (fun b i =>
             f (T2.at_ x (bidx (T2.d0 x) b) (bidx (T2.d1 x) i))
               (T2.at_ y (bidx (T2.d0 y) b) (bidx (T2.d1 y) i))))
  | _, _ => raise RuntimeError
  end.

Definition map2_3 {A B C : Type} (f : A -> B -> C)
  (x : T3.t A) (y : T3.t B) : result (T3.t C) :=
  match bdim (T3.d0 x) (T3.d0 y), bdim (T3.d1 x) (T3.d1 y),
        bdim (T3.d2 x) (T3.d2 y) with
  | Some n0, Some n1, Some n2 =>
      ret (T3.mk n0 n1 n2 (fun b i v =>
             f (T3.at_ x (bidx (T3.d0 x) b) (bidx (T3.d1 x) i)
                         (bidx (T3.d2 x) v))
               (T3.at_ y (bidx (T3.d0 y) b) (bidx (T3.d1 y) i)
                         (bidx (T3.d2 y) v))))
  | _, _, _ => raise RuntimeError
  end.

(** A float entry times a boolean entry.  Every entry of this model is a
    real, so a masked entry is exactly zero; on floats the product of zero
    and an infinity or NaN is NaN ([Float.mul_mask]). *)
Definition of_bool (m : bool) : dual := const (if m then 1 else 0).
Definition mul_mask (x : dual) (m : bool) : dual := mul x (of_bool m).

(** *** Softmax over the last dimension

    [softmax] and [log_softmax] by their defining formulas; the library
    subtracts the row maximum first, which changes no value in exact
    arithmetic.  Every probability is positive here; on floats one can
    underflow to zero ([Float.softmax]). *)

Definition softmax (x : T3.t dual) : T3.t dual :=
  T3.mk (T3.d0 x) (T3.d1 x) (T3.d2 x) (fun b i v =>
    div (dexp (T3.at_ x b i v))
        (dsum (T3.d2 x) (fun w => dexp (T3.at_ x b i w)))).

Definition log_softmax (x : T3.t dual) : T3.t dual :=
  T3.mk (T3.d0 x) (T3.d1 x) (T3.d2 x) (fun b i v =>
    sub (T3.at_ x b i v)
        (dlog (dsum (T3.d2 x) (fun w => dexp (T3.at_ x b i w))))).

(** *** Gather along the last dimension

    [torch.gather(x, dim=2, index=index.unsqueeze(2)).squeeze(2)]: entry
    (b, i) of the result is [x[b, i, index[b, i]]].  The index may not be
    larger than [x] along the other dimensions, and an index outside
    [0, x.shape[2]) is a runtime error; negative indices do not wrap. *)

Definition index_ok (n : nat) (k : Z) : bool :=
  (0 <=? k)%Z && (k <? Z.of_nat n)%Z.

Definition all_indices_ok (n : nat) (index : T2.t Z) : bool :=
  forallb (fun b =>
    forallb (fun i => index_ok n (T2.at_ index b i)) (seq 0 (T2.d1 index)))
    (seq 0 (T2.d0 index)).

Definition gather_last (x : T3.t dual) (index : T2.t Z) : result (T2.t dual) :=
  if Nat.leb (T2.d0 index) (T3.d0 x) && Nat.leb (T2.d1 index) (T3.d1 x)
     && all_indices_ok (T3.d2 x) index
  then ret (T2.mk (T2.d0 index) (T2.d1 index) (fun b i =>
              T3.at_ x b i (Z.to_nat (T2.at_ index b i))))
  else raise RuntimeError.

(** [x.sum(-1)] of a matrix: one entry per row. *)
Definition row_sums (x : T2.t dual) : vec :=
  List.map (fun b => dsum (T2.d1 x) (T2.at_ x b)) (seq 0 (T2.d0 x)).

Definition row_counts (m : T2.t bool) : list Z :=
  List.map (fun b => count (T2.d1 m) (T2.at_ m b)) (seq 0 (T2.d0 m)).

(** *** Quotients by a count

    A float divided by an integer count.  Dividing by zero gives no real
    number: the quotient keeps its numerator, 0/0 being NaN and x/0 an
    infinity. *)

Inductive quot : Type :=
| Fin (q : dual)
| ZeroDiv (numerator : dual).

Definition div_count (x : dual) (n : Z) : quot :=
  if (n =? 0)%Z then ZeroDiv x else Fin (div x (const (IZR n))).

Definition is_nan (q : quot) : Prop :=
  match q with
  | ZeroDiv x => primal x = 0
  | Fin _ => False
  end.

Definition vdiv_count : vec -> list Z -> result (list quot) :=
  broadcast2 div_count.

(** ** The sequence aligner *)

Definition assert_ (b : bool) : result unit :=
  if b then ret tt else raise AssertionError.

Definition shape_eqb (s s' : nat * nat) : bool :=
  Nat.eqb (fst s) (fst s') && Nat.eqb (snd s) (snd s').

(** What the aligner returns: plain sums, or quotients by the number of
    unmasked positions. *)
Definition outputs (average_log_prob : bool) : Type :=
  if average_log_prob then (list quot * list quot * list quot)%type
  else (vec * vec * vec)%type.

Definition SENTINEL : Z := (-100)%Z.

(** [tdpo_get_batch_logps]. *)
Definition tdpo_get_batch_logps
  (logits reference_logits : T3.t dual) (labels : T2.t Z)
  (average_log_prob : bool) : result (outputs average_log_prob) :=
  _ <- assert_ (shape_eqb (T3.shape_init logits) (T2.shape labels)) ;;
  _ <- assert_ (shape_eqb (T3.shape_init reference_logits) (T2.shape labels)) ;;
  let labels := T2.tail1 labels in
  let logits := T3.init1 logits in
  let reference_logits := T3.init1 reference_logits in
  let loss_mask := T2.map (fun l => negb (l =? SENTINEL)%Z) labels in
  let labels := T2.map (fun l => if (l =? SENTINEL)%Z then 0%Z else l) labels in
  let vocab_logps := log_softmax logits in
  let reference_vocab_ps := softmax reference_logits in
  let reference_vocab_logps := T3.map dlog reference_vocab_ps in
  logps_diff <- map2_3 sub reference_vocab_logps vocab_logps ;;
  kl_terms <- map2_3 mul reference_vocab_ps logps_diff ;;
  let per_position_kl := T3.sum_last kl_terms in
  gathered <- gather_last vocab_logps labels ;;
  per_token_logps <- map2_2 mul_mask gathered loss_mask ;;
  reference_gathered <- gather_last reference_vocab_logps labels ;;
  per_reference_token_logps <- map2_2 mul_mask reference_gathered loss_mask ;;
  logps_margin <- map2_2 sub per_token_logps per_reference_token_logps ;;
  if average_log_prob as a return result (outputs a)
  then
    masked_margin <- map2_2 mul_mask logps_margin loss_mask ;;
    r1 <- vdiv_count (row_sums masked_margin) (row_counts loss_mask) ;;
    masked_kl <- map2_2 mul_mask per_position_kl loss_mask ;;
    r2 <- vdiv_count (row_sums masked_kl) (row_counts loss_mask) ;;
    masked_logps <- map2_2 mul_mask per_token_logps loss_mask ;;
    r3 <- vdiv_count (row_sums masked_logps) (row_counts loss_mask) ;;
    ret (r1, r2, r3)
  else
    masked_margin <- map2_2 mul_mask logps_margin loss_mask ;;
    masked_kl <- map2_2 mul_mask per_position_kl loss_mask ;;
    masked_logps <- map2_2 mul_mask per_token_logps loss_mask ;;
    ret (row_sums masked_margin, row_sums masked_kl, row_sums masked_logps).

(** ** The batch orchestrator *)

(** The three entries of the concatenated batch that [forward] reads. *)
Record concatenated_batch : Type := {
  concatenated_combined_input_ids : T2.t Z;
  concatenated_combined_attention_mask : T2.t Z;
  concatenated_labels : T2.t Z
}.

(** A language model: token ids, attention mask and [use_cache] to the
    [.logits] of its output. *)
Definition language_model : Type := T2.t Z -> T2.t Z -> bool -> T3.t dual.

Inductive variant : Type :=
| TDPO1
| TDPO2.

(** The fields of [self] the two classes read. *)
Record tdpo_model : Type := {
  class_ : variant;
  config_loss : Config.loss;
  config_mode : String.string;
  policy : language_model;
  reference_model : language_model;
  is_mistral : bool
}.

(** [self.loss], resolved by the class of [self]. *)
Definition loss (self : tdpo_model) : vec -> vec -> vec -> vec ->
  result (vec * vec * vec) :=
  match class_ self with
  | TDPO1 => loss1 (config_loss self)
  | TDPO2 => loss2 (config_loss self)
  end.

(** [.to(self.precision)]: a change of float format, the identity on the
    idealised entries. *)
Definition to_precision (x : T3.t dual) : T3.t dual := x.

(** What is computed inside [with torch.no_grad()] carries no gradient. *)
Definition no_grad (x : T3.t dual) : T3.t dual := T3.map detach x.

(** [losses.mean()]. *)
Definition mean (v : vec) : quot :=
  div_count (dsum (length v) (fun i => nth i v zero)) (Z.of_nat (length v)).

Definition gtb (x y : dual) : bool :=
  if Rgt_dec (primal x) (primal y) then true else false.

(** [(chosen_rewards > rejected_rewards.flip(dims=[0])).float()]. *)
Definition reward_accuracies (chosen_rewards rejected_rewards : vec)
  : result vec :=
  cmp <- broadcast2 gtb chosen_rewards (rev rejected_rewards) ;;
  ret (List.map of_bool cmp).

(** *** The metrics dictionary *)

Inductive metric : Type :=
| Vector (v : vec)
| Scalar (q : quot).

Definition dict : Type := list (String.string * metric).

(** [d[k] = v]: overwrite the entry of [k], or add one at the end. *)
Fixpoint dict_set (d : dict) (k : String.string) (v : metric) : dict :=
  match d with
  | [] => [(k, v)]
  | (k', v') :: d' =>
      if String.eqb k' k then (k', v) :: d' else (k', v') :: dict_set d' k v
  end.

Fixpoint dict_get (d : dict) (k : String.string) : option metric :=
  match d with
  | [] => None
  | (k', v') :: d' => if String.eqb k' k then Some v' else dict_get d' k
  end.

Definition detach_quot (q : quot) : quot :=
  match q with
  | Fin x => Fin (detach x)
  | ZeroDiv x => ZeroDiv (detach x)
  end.

(** Modelled from the spec: [detach_float_metrics] of [utils/util.py] is not
    part of the sources at hand; it detaches every value of the mapping and
    casts it to float (the identity on the idealised entries). *)
Definition detach_float_metrics (metrics : dict) : dict :=
  List.map (fun kv =>
    (fst kv, match snd kv with
             | Vector v => Vector (vdetach v)
             | Scalar q => Scalar (detach_quot q)
             end)) metrics.

(** The f-strings [f'{family}_{mode}/{name}'] and [f'loss/{mode}']. *)
Definition key (family mode name : String.string) : String.string :=
  String.append family
    (String.append "_"%string
       (String.append mode (String.append "/"%string name))).
Definition loss_key (mode : String.string) : String.string :=
  String.append "loss/"%string mode.
Arguments key (family mode name)%_string.

Section Orchestrator.

(** The batch mapping and the inherited [DPOModel.concatenated_inputs] are
    defined outside [tdpo.py]. *)
Variable batch : Type.
Variable chosen_input_ids : batch -> T2.t Z.
Variable concatenated_inputs : tdpo_model -> batch -> concatenated_batch.

(** [TDPO1Model.forward]. *)
Definition forward (self : tdpo_model) (model : language_model)
  (batch_ : batch) (average_log_prob : bool)
  : result (vec * vec * vec * vec * vec * vec) :=
  let concatenated_batch := concatenated_inputs self batch_ in
  let all_logits :=
    to_precision
      (model (concatenated_combined_input_ids concatenated_batch)
             (concatenated_combined_attention_mask concatenated_batch)
             (negb (is_mistral self))) in
  let reference_all_logits :=
    no_grad (to_precision
      (reference_model self
         (concatenated_combined_input_ids concatenated_batch)
         (concatenated_combined_attention_mask concatenated_batch)
         (negb (is_mistral self)))) in
  '(all_logps_margin, all_position_kl, all_logps) <-
    tdpo_get_batch_logps all_logits reference_all_logits
      (concatenated_labels concatenated_batch) false ;;
  let n := T2.d0 (chosen_input_ids batch_) in
  let chosen_logps_margin := firstn n all_logps_margin in
  let rejected_logps_margin := skipn n all_logps_margin in
  let chosen_position_kl := firstn n all_position_kl in
  let rejected_position_kl := skipn n all_position_kl in
  let chosen_logps := vdetach (firstn n all_logps) in
  let rejected_logps := vdetach (skipn n all_logps) in
  ret (chosen_logps_margin, rejected_logps_margin, chosen_position_kl,
       rejected_position_kl, chosen_logps, rejected_logps).

(** [TDPO1Model.get_batch_metrics]. *)
Definition get_batch_metrics (self : tdpo_model) (batch_ : batch)
  (mode : option String.string) : result (quot * dict) :=
  let metrics : dict := [] in
  let mode := match mode with None => config_mode self | Some m => m end in
  '(chosen_logps_margin, rejected_logps_margin, chosen_position_kl,
    rejected_position_kl, policy_chosen_logps, policy_rejected_logps) <-
    forward self (policy self) batch_ false ;;
  '(losses, chosen_rewards, rejected_rewards) <-
    loss self chosen_logps_margin rejected_logps_margin
      chosen_position_kl rejected_position_kl ;;
  let losses := mean losses in
  reward_accuracies_ <- reward_accuracies chosen_rewards rejected_rewards ;;
  let metrics := dict_set metrics (key "rewards" mode "chosen")
                   (Vector chosen_rewards) in
  let metrics := dict_set metrics (key "rewards" mode "rejected")
                   (Vector rejected_rewards) in
  let metrics := dict_set metrics (key "rewards" mode "accuracies")
                   (Vector reward_accuracies_) in
  reward_margins <- vsub chosen_rewards rejected_rewards ;;
  let metrics := dict_set metrics (key "rewards" mode "margins")
                   (Vector reward_margins) in
  let metrics := dict_set metrics (key "logps" mode "rejected")
                   (Vector policy_rejected_logps) in
  let metrics := dict_set metrics (key "logps" mode "chosen")
                   (Vector policy_chosen_logps) in
  let metrics := dict_set metrics (loss_key mode) (Scalar losses) in
  let metrics := dict_set metrics (key "kl" mode "chosen")
                   (Vector chosen_position_kl) in
  let metrics := dict_set metrics (key "kl" mode "rejected")
                   (Vector rejected_position_kl) in
  kl_margin <- vsub chosen_position_kl rejected_position_kl ;;
  let metrics := dict_set metrics (key "kl" mode "margin")
                   (Vector kl_margin) in
  let metrics := detach_float_metrics metrics in
  ret (losses, metrics).

End Orchestrator.

(** ** Floating point: special values and range

    The entries above are exact reals.  The tensors of the code are floats,
    and two things happen to a float that cannot happen to a real: it can
    be an infinity or NaN, and a result whose magnitude leaves the range of
    the format becomes an infinity or zero.  This second model keeps both,
    with the arithmetic of IEEE 754 on the special values; it does not
    model the rounding of the significand, and it has one zero.  The range
    is that of binary64, the widest format of the library: what overflows
    or underflows here does so in float32 and in bfloat16 as well. *)

Module Float.

Inductive float : Type :=
| Finite (x : R)
| PInf
| NInf
| NaN.

(** Magnitudes from [huge] on are infinite, magnitudes below [tiny] are
    zero. *)
Definition huge : R := 2 ^ 1024.
Definition tiny : R := / 2 ^ 1075.

Definition round (x : R) : float :=
  if Rle_dec huge x then PInf
  else if Rle_dec x (- huge) then NInf
  else if Rlt_dec (Rabs x) tiny then Finite 0
  else Finite x.

Definition neg (a : float) : float :=
  match a with
  | Finite x => Finite (- x)
  | PInf => NInf
  | NInf => PInf
  | NaN => NaN
  end.

Definition abs (a : float) : float :=
  match a with
  | Finite x => Finite (Rabs x)
  | PInf | NInf => PInf
  | NaN => NaN
  end.

Definition add (a b : float) : float :=
  match a, b with
  | NaN, _ | _, NaN => NaN
  | PInf, NInf | NInf, PInf => NaN
  | PInf, _ | _, PInf => PInf
  | NInf, _ | _, NInf => NInf
  | Finite x, Finite y => round (x + y)
  end.

Definition sub (a b : float) : float := add a (neg b).

(** An infinity times [x]: NaN when [x] is zero. *)
Definition scale_inf (positive : bool) (x : R) : float :=
  if Req_dec_T x 0 then NaN
  else if Rlt_dec 0 x then (if positive then PInf else NInf)
  else (if positive then NInf else PInf).

Definition mul (a b : float) : float :=
  match a, b with
  | NaN, _ | _, NaN => NaN
  | Finite x, Finite y => round (x * y)
  | Finite x, PInf | PInf, Finite x => scale_inf true x
  | Finite x, NInf | NInf, Finite x => scale_inf false x
  | PInf, PInf | NInf, NInf => PInf
  | PInf, NInf | NInf, PInf => NInf
  end.

(** The divisors of the code are sums of exponentials and counts: a zero
    divisor is +0. *)
Definition div (a b : float) : float :=
  match a, b with
  | NaN, _ | _, NaN => NaN
  | Finite x, Finite y =>
      if Req_dec_T y 0 then scale_inf true x else round (x / y)
  | Finite _, PInf | Finite _, NInf => Finite 0
  | PInf, Finite y => if Rle_dec 0 y then PInf else NInf
  | NInf, Finite y => if Rle_dec 0 y then NInf else PInf
  | PInf, PInf | PInf, NInf | NInf, PInf | NInf, NInf => NaN
  end.

Definition max (a b : float) : float :=
  match a, b with
  | NaN, _ | _, NaN => NaN
  | PInf, _ | _, PInf => PInf
  | NInf, c | c, NInf => c
  | Finite x, Finite y => Finite (Rmax x y)
  end.

Definition min (a b : float) : float :=
  match a, b with
  | NaN, _ | _, NaN => NaN
  | NInf, _ | _, NInf => NInf
  | PInf, c | c, PInf => c
  | Finite x, Finite y => Finite (Rmin x y)
  end.

Definition exp (a : float) : float :=
  match a with
  | Finite x => round (Rtrigo_def.exp x)
  | PInf => PInf
  | NInf => Finite 0
  | NaN => NaN
  end.

Definition log (a : float) : float :=
  match a with
  | Finite x =>
      if Rlt_dec x 0 then NaN
      else if Req_dec_T x 0 then NInf
      else round (ln x)
  | PInf => PInf
  | NInf | NaN => NaN
  end.

Definition log1p (a : float) : float :=
  match a with
  | Finite x =>
      if Rlt_dec x (- 1) then NaN
      else if Req_dec_T x (- 1) then NInf
      else round (ln (1 + x))
  | PInf => PInf
  | NInf | NaN => NaN
  end.

(** [F.logsigmoid], in the numerically stable form the library computes:
    min(x, 0) - log1p(exp(-|x|)). *)
Definition logsigmoid (a : float) : float :=
  sub (min a (Finite 0)) (log1p (exp (neg (abs a)))).

Fixpoint sum (n : nat) (f : nat -> float) : float :=
  match n with
  | O => Finite 0
  | S k => add (sum k f) (f k)
  end.

Fixpoint max_over (n : nat) (f : nat -> float) : float :=
  match n with
  | O => NInf
  | S k => max (max_over k f) (f k)
  end.

Definition of_bool (m : bool) : float := Finite (if m then 1 else 0).
Definition mul_mask (x : float) (m : bool) : float := mul x (of_bool m).

(** [softmax] and [log_softmax] as the library computes them, the row
    maximum subtracted first. *)
Definition softmax (x : T3.t float) : T3.t float :=
  T3.mk (T3.d0 x) (T3.d1 x) (T3.d2 x) (fun b i v =>
    let m := max_over (T3.d2 x) (T3.at_ x b i) in
    div (exp (sub (T3.at_ x b i v) m))
        (sum (T3.d2 x) (fun w => exp (sub (T3.at_ x b i w) m)))).

Definition log_softmax (x : T3.t float) : T3.t float :=
  T3.mk (T3.d0 x) (T3.d1 x) (T3.d2 x) (fun b i v =>
    let m := max_over (T3.d2 x) (T3.at_ x b i) in
    sub (sub (T3.at_ x b i v) m)
        (log (sum (T3.d2 x) (fun w => exp (sub (T3.at_ x b i w) m))))).

Definition sum_last (x : T3.t float) : T2.t float :=
  T2.mk (T3.d0 x) (T3.d1 x) (fun b i => sum (T3.d2 x) (T3.at_ x b i)).

Definition gather_last (x : T3.t float) (index : T2.t Z)
  : result (T2.t float) :=
  if Nat.leb (T2.d0 index) (T3.d0 x) && Nat.leb (T2.d1 index) (T3.d1 x)
     && all_indices_ok (T3.d2 x) index
  then ret (T2.mk (T2.d0 index) (T2.d1 index) (fun b i =>
              T3.at_ x b i (Z.to_nat (T2.at_ index b i))))
  else raise RuntimeError.

Definition row_sums (x : T2.t float) : list float :=
  List.map (fun b => sum (T2.d1 x) (T2.at_ x b)) (seq 0 (T2.d0 x)).

(** A sum divided by an integer count. *)
Definition div_count (x : float) (n : Z) : float := div x (Finite (IZR n)).

(** [tdpo_get_batch_logps] on floats. *)
Definition tdpo_get_batch_logps
  (logits reference_logits : T3.t float) (labels : T2.t Z)
  (average_log_prob : bool)
  : result (list float * list float * list float) :=
  _ <- assert_ (shape_eqb (T3.shape_init logits) (T2.shape labels)) ;;
  _ <- assert_ (shape_eqb (T3.shape_init reference_logits) (T2.shape labels)) ;;
  let labels := T2.tail1 labels in
  let logits := T3.init1 logits in
  let reference_logits := T3.init1 reference_logits in
  let loss_mask := T2.map (fun l => negb (l =? SENTINEL)%Z) labels in
  let labels := T2.map (fun l => if (l =? SENTINEL)%Z then 0%Z else l) labels in
  let vocab_logps := log_softmax logits in
  let reference_vocab_ps := softmax reference_logits in
  let reference_vocab_logps := T3.map log reference_vocab_ps in
  logps_diff <- map2_3 sub reference_vocab_logps vocab_logps ;;
  kl_terms <- map2_3 mul reference_vocab_ps logps_diff ;;
  let per_position_kl := sum_last kl_terms in
  gathered <- gather_last vocab_logps labels ;;
  per_token_logps <- map2_2 mul_mask gathered loss_mask ;;
  reference_gathered <- gather_last reference_vocab_logps labels ;;
  per_reference_token_logps <- map2_2 mul_mask reference_gathered loss_mask ;;
  logps_margin <- map2_2 sub per_token_logps per_reference_token_logps ;;
  let counts := row_counts loss_mask in
  if average_log_prob
  then
    masked_margin <- map2_2 mul_mask logps_margin loss_mask ;;
    r1 <- broadcast2 div_count (row_sums masked_margin) counts ;;
    masked_kl <- map2_2 mul_mask per_position_kl loss_mask ;;
    r2 <- broadcast2 div_count (row_sums masked_kl) counts ;;
    masked_logps <- map2_2 mul_mask per_token_logps loss_mask ;;
    r3 <- broadcast2 div_count (row_sums masked_logps) counts ;;
    ret (r1, r2, r3)
  else
    masked_margin <- map2_2 mul_mask logps_margin loss_mask ;;
    masked_kl <- map2_2 mul_mask per_position_kl loss_mask ;;
    masked_logps <- map2_2 mul_mask per_token_logps loss_mask ;;
    ret (row_sums masked_margin, row_sums masked_kl, row_sums masked_logps).

(** [TDPO1Model.loss] on floats; [detach] changes no value. *)
Definition loss1 (cfg : Config.loss)
  (chosen_logps_margin rejected_logps_margin
   chosen_position_kl rejected_position_kl : list float)
  : result (list float * list float * list float) :=
  chosen_values <- broadcast2 add chosen_logps_margin chosen_position_kl ;;
  rejected_values <-
    broadcast2 add rejected_logps_margin rejected_position_kl ;;
  chosen_rejected_logps_margin <-
    broadcast2 sub chosen_logps_margin rejected_logps_margin ;;
  kl_diff <- broadcast2 sub rejected_position_kl chosen_position_kl ;;
  logits <- broadcast2 sub chosen_rejected_logps_margin kl_diff ;;
  let beta := Finite (Config.beta cfg) in
  let losses := List.map (fun x => neg (logsigmoid (mul beta x))) logits in
  let chosen_rewards := List.map (mul beta) chosen_values in
  let rejected_rewards := List.map (mul beta) rejected_values in
  ret (losses, chosen_rewards, rejected_rewards).

End Float.

(** ** Vocabulary of the statements *)

(** Two vectors with the same forward values, whatever their tangents. *)
Definition same_values (xs ys : vec) : Prop :=
  List.map primal xs = List.map primal ys.

(** Two runs that raise the same error or return related values. *)
Definition same_outcome {A : Type} (rel : A -> A -> Prop) (r r' : result A)
  : Prop :=
  match r, r' with
  | inl e, inl e' => e = e'
  | inr a, inr a' => rel a a'
  | _, _ => False
  end.

(** The logit of each variant, on forward values. *)
Definition logit1 (cm rm ck rk : R) : R := (cm - rm) - (rk - ck).
Definition logit2 (alpha cm rm ck rk : R) : R := (cm - rm) - alpha * (rk - ck).

(** *** Agreement of tensors inside their shape *)

Definition agree2 {A : Type} (x y : T2.t A) : Prop :=
  T2.d0 x = T2.d0 y /\ T2.d1 x = T2.d1 y /\
  forall b i, (b < T2.d0 x)%nat -> (i < T2.d1 x)%nat ->
              T2.at_ x b i = T2.at_ y b i.

Definition agree3 {A : Type} (x y : T3.t A) : Prop :=
  T3.d0 x = T3.d0 y /\ T3.d1 x = T3.d1 y /\ T3.d2 x = T3.d2 y /\
  forall b i v, (b < T3.d0 x)%nat -> (i < T3.d1 x)%nat -> (v < T3.d2 x)%nat ->
                T3.at_ x b i v = T3.at_ y b i v.

(** *** The aligner in closed form

    What [tdpo_get_batch_logps] computes at batch index [b] and shifted
    position [i] (logits position [i], label position [i + 1]), written on
    the entries of its three arguments. *)

Section ClosedForm.

Variables (logits reference_logits : T3.t dual) (labels : T2.t Z).

Definition shapes_ok : bool :=
  shape_eqb (T3.shape_init logits) (T2.shape labels) &&
  shape_eqb (T3.shape_init reference_logits) (T2.shape labels).

(** The labels after the shift and the replacement of the sentinel. *)
Definition shifted_labels : T2.t Z :=
  T2.map (fun l => if (l =? SENTINEL)%Z then 0%Z else l) (T2.tail1 labels).

Definition mask_at (b i : nat) : bool :=
  negb (T2.at_ labels b (S i) =? SENTINEL)%Z.

Definition label_at (b i : nat) : nat := Z.to_nat (T2.at_ shifted_labels b i).

(** The vocabulary sizes broadcast, and the labels index both of them. *)
Definition runtime_ok : bool :=
  match bdim (T3.d2 reference_logits) (T3.d2 logits) with
  | Some _ =>
      all_indices_ok (T3.d2 logits) shifted_labels &&
      all_indices_ok (T3.d2 reference_logits) shifted_labels
  | None => false
  end.

Definition kl_width : nat :=
  match bdim (T3.d2 reference_logits) (T3.d2 logits) with
  | Some w => w
  | None => O
  end.

Definition sum_exp (x : T3.t dual) (b i : nat) : dual :=
  dsum (T3.d2 x) (fun w => dexp (T3.at_ x b i w)).

Definition log_prob (x : T3.t dual) (b i v : nat) : dual :=
  sub (T3.at_ x b i v) (dlog (sum_exp x b i)).

Definition prob (x : T3.t dual) (b i v : nat) : dual :=
  div (dexp (T3.at_ x b i v)) (sum_exp x b i).

Definition kl_at (b i : nat) : dual :=
  dsum kl_width (fun v =>
    mul (prob reference_logits b i (bidx (T3.d2 reference_logits) v))
        (sub (dlog (prob reference_logits b i
                      (bidx (T3.d2 reference_logits) v)))
             (log_prob logits b i (bidx (T3.d2 logits) v)))).

Definition token_logp_at (b i : nat) : dual :=
  mul_mask (log_prob logits b i (label_at b i)) (mask_at b i).

Definition reference_token_logp_at (b i : nat) : dual :=
  mul_mask (dlog (prob reference_logits b i (label_at b i))) (mask_at b i).

Definition margin_at (b i : nat) : dual :=
  sub (token_logp_at b i) (reference_token_logp_at b i).

(** The sum over the shifted positions of a quantity times the mask. *)
Definition masked_sums (q : nat -> nat -> dual) : vec :=
  List.map (fun b => dsum (T2.d1 labels - 1)
                       (fun i => mul_mask (q b i) (mask_at b i)))
           (seq 0 (T2.d0 labels)).

Definition mask_counts : list Z :=
  List.map (fun b => count (T2.d1 labels - 1) (mask_at b))
           (seq 0 (T2.d0 labels)).

Definition closed_form (average_log_prob : bool) : outputs average_log_prob :=
  if average_log_prob as a return outputs a
  then (zip_with div_count (masked_sums margin_at) mask_counts,
        zip_with div_count (masked_sums kl_at) mask_counts,
        zip_with div_count (masked_sums token_logp_at) mask_counts)
  else (masked_sums margin_at, masked_sums kl_at, masked_sums token_logp_at).

End ClosedForm.


(** A batch of one sequence of two positions over a one-token vocabulary,
    all logits zero, and its labels [[0, 5]]: label 5 is no token. *)
Definition zero_logits_1_2_1 : T3.t dual := T3.mk 1 2 1 (fun _ _ _ => zero).
Definition labels_0_0 : T2.t Z := T2.mk 1 2 (fun _ _ => 0%Z).
Definition labels_all_masked : T2.t Z := T2.mk 1 2 (fun _ _ => SENTINEL).

(** Sum of reals over an index range: the forward value of [dsum]. *)
Fixpoint rsum (n : nat) (f : nat -> R) : R :=
  match n with
  | O => 0
  | S k => rsum k f + f k
  end.

(** The same batch with another logit in the last position, and with
    another label in the first position. *)
Definition logits_1_2_1_last_changed : T3.t dual :=
  T3.mk 1 2 1 (fun _ i _ => match i with O => zero | _ => const 7 end).
Definition labels_9_0 : T2.t Z :=
  T2.mk 1 2 (fun _ i => match i with O => 9%Z | _ => 0%Z end).

(** The same batch over a vocabulary of two tokens. *)
Definition zero_logits_1_2_2 : T3.t dual := T3.mk 1 2 2 (fun _ _ _ => zero).

(** A model of the orchestrator for the examples: two sequences (one chosen,
    one rejected) of two positions over two tokens, every logit zero, both
    labelled with token 0; policy and reference are the same network. *)
Definition example_labels_2_2 : T2.t Z := T2.mk 2 2 (fun _ _ => 0%Z).
Definition example_batch : concatenated_batch :=
  {| concatenated_combined_input_ids := example_labels_2_2;
     concatenated_combined_attention_mask := T2.mk 2 2 (fun _ _ => 1%Z);
     concatenated_labels := example_labels_2_2 |}.
Definition example_network : language_model :=
  fun _ _ _ => T3.mk 2 2 2 (fun _ _ _ => zero).
Definition example_model (v : variant) : tdpo_model :=
  {| class_ := v;
     config_loss := Config.Build_loss 1 1;
     config_mode := "train"%string;
     policy := example_network;
     reference_model := example_network;
     is_mistral := false |}.
(** The same model on a batch without any sequence. *)
Definition empty_batch : concatenated_batch :=
  {| concatenated_combined_input_ids := T2.mk 0 2 (fun _ _ => 0%Z);
     concatenated_combined_attention_mask := T2.mk 0 2 (fun _ _ => 1%Z);
     concatenated_labels := T2.mk 0 2 (fun _ _ => 0%Z) |}.
Definition empty_network : language_model :=
  fun _ _ _ => T3.mk 0 2 2 (fun _ _ _ => zero).
Definition empty_model (v : variant) : tdpo_model :=
  {| class_ := v;
     config_loss := Config.Build_loss 1 1;
     config_mode := "train"%string;
     policy := empty_network;
     reference_model := empty_network;
     is_mistral := false |}.

(** The two tensors that [forward] hands to the aligner. *)
Definition all_logits (self : tdpo_model) (model : language_model)
  (cb : concatenated_batch) : T3.t dual :=
  to_precision
    (model (concatenated_combined_input_ids cb)
           (concatenated_combined_attention_mask cb)
           (negb (is_mistral self))).
Definition reference_all_logits (self : tdpo_model) (cb : concatenated_batch)
  : T3.t dual :=
  no_grad (all_logits self (reference_model self) cb).

(** The batch of the example model: its first sequence is the chosen one. *)
Definition example_chosen_input_ids : unit -> T2.t Z :=
  fun _ => T2.mk 1 2 (fun _ _ => 0%Z).
Definition example_concatenated_inputs
  : tdpo_model -> unit -> concatenated_batch :=
  fun _ _ => example_batch.
Definition empty_chosen_input_ids : unit -> T2.t Z :=
  fun _ => T2.mk 0 2 (fun _ _ => 0%Z).
Definition empty_concatenated_inputs
  : tdpo_model -> unit -> concatenated_batch :=
  fun _ _ => empty_batch.

(** The example model with a reference network whose logits carry a
    tangent. *)
Definition tracked_network : language_model :=
  fun _ _ _ => T3.mk 2 2 2 (fun _ _ _ => Dual.mk 0 1).
Definition tracked_reference_model (v : variant) : tdpo_model :=
  {| class_ := v;
     config_loss := Config.Build_loss 1 1;
     config_mode := "train"%string;
     policy := example_network;
     reference_model := tracked_network;
     is_mistral := false |}.

(** Inputs on floats: all-zero logits of shape (1, 2, 2), and reference
    logits whose first position prefers token 1 to token 0 by 2000. *)
Definition float_zero_logits_1_2_2 : T3.t Float.float :=
  T3.mk 1 2 2 (fun _ _ _ => Float.Finite 0).
Definition confident_reference_logits : T3.t Float.float :=
  T3.mk 1 2 2 (fun _ i v =>
    match i, v with
    | O, O => Float.Finite (- 2000)
    | _, _ => Float.Finite 0
    end).

(** * Properties *)

(** ** Arithmetic of tracked scalars *)

Lemma dual_eq (x y : dual) :
  primal x = primal y -> tangent x = tangent y -> x = y.
Proof. destruct x, y; simpl; intros; subst; reflexivity. Qed.

Lemma primal_detach (x : dual) : primal (detach x) = primal x.
Proof. reflexivity. Qed.

Lemma tangent_detach (x : dual) : tangent (detach x) = 0.
Proof. reflexivity. Qed.


Lemma scale_detach (c : R) (x : dual) :
  scale c (detach x) = const (c * primal x).
Proof. apply dual_eq; simpl; ring. Qed.



Lemma add_zero_r (x : dual) : add x zero = x.
Proof. apply dual_eq; simpl; ring. Qed.

Lemma mul_mask_false (x : dual) : mul_mask x false = zero.
Proof. apply dual_eq; simpl; ring. Qed.



(** ** Log-sigmoid *)

Lemma sigmoid_denominator_pos (x : R) : 0 < 1 + exp (- x).
Proof. pose proof (exp_pos (- x)); lra. Qed.



Lemma logsigmoid_softplus (x : R) : logsigmoid x = - ln (1 + exp (- x)).
Proof.
  unfold logsigmoid, sigmoid, Rdiv. rewrite Rmult_1_l.
  apply ln_Rinv, sigmoid_denominator_pos.
Qed.

Lemma neg_logsigmoid_strictly_decreasing (x y : R) :
  x < y -> - logsigmoid y < - logsigmoid x.
Proof.
  intros Hxy. rewrite !logsigmoid_softplus, !Ropp_involutive.
  apply ln_increasing; [apply sigmoid_denominator_pos |].
  apply Rplus_lt_compat_l, exp_increasing. lra.
Qed.


(** The tangent rule of [dlogsigmoid] is the derivative of [logsigmoid]. *)
Lemma derivable_pt_lim_logsigmoid (x : R) :
  derivable_pt_lim logsigmoid x (1 - sigmoid x).
Proof.
  assert (Hd := sigmoid_denominator_pos x).
  assert (Hs : derivable_pt_lim (fct_cte 1 + comp exp (- id))%F x
                 (0 + exp (- x) * - 1)).
  { apply derivable_pt_lim_plus; [apply derivable_pt_lim_const |].
    apply derivable_pt_lim_comp.
    - apply derivable_pt_lim_opp, derivable_pt_lim_id.
    - apply derivable_pt_lim_exp. }
  assert (Hl : derivable_pt_lim (comp ln (fct_cte 1 + comp exp (- id))%F) x
                 (/ (1 + exp (- x)) * (0 + exp (- x) * - 1))).
  { apply derivable_pt_lim_comp; [exact Hs |].
    apply derivable_pt_lim_ln. exact Hd. }
  assert (Ho := derivable_pt_lim_opp _ _ _ Hl).
  replace (1 - sigmoid x) with (- (/ (1 + exp (- x)) * (0 + exp (- x) * - 1))).
  - intros eps Heps. destruct (Ho eps Heps) as [delta Hdelta].
    exists delta. intros h Hh Hlt. specialize (Hdelta h Hh Hlt).
    unfold opp_fct, comp, plus_fct, fct_cte, id in Hdelta.
    rewrite !logsigmoid_softplus. exact Hdelta.
  - unfold sigmoid. field. lra.
Qed.

(** ** Elementwise operations on vectors *)

Lemma zip_with_length {A B C : Type} (f : A -> B -> C) (xs : list A) (ys : list B) :
  length xs = length ys -> length (zip_with f xs ys) = length xs.
Proof.
  revert ys; induction xs as [| x xs IH]; intros [| y ys] H; simpl in *;
    try discriminate; auto.
Qed.

Lemma zip_with_nth {A B C : Type} (f : A -> B -> C) (xs : list A) (ys : list B)
  (i : nat) (dx : A) (dy : B) (d : C) :
  (i < length xs)%nat -> length xs = length ys ->
  nth i (zip_with f xs ys) d = f (nth i xs dx) (nth i ys dy).
Proof.
  revert ys i; induction xs as [| x xs IH]; intros [| y ys] i Hi H;
    simpl in *; try discriminate; try lia.
  destruct i; [reflexivity | apply IH; lia].
Qed.

Lemma nth_map_lt {A B : Type} (f : A -> B) (l : list A) (i : nat) (d : A) (d' : B) :
  (i < length l)%nat -> nth i (map f l) d' = f (nth i l d).
Proof.
  intros Hi. rewrite (nth_indep _ d' (f d)) by (rewrite length_map; exact Hi).
  apply map_nth.
Qed.

Lemma broadcast2_same_length {A B C : Type} (f : A -> B -> C)
  (xs : list A) (ys : list B) :
  length xs = length ys -> broadcast2 f xs ys = ret (zip_with f xs ys).
Proof.
  intros H. unfold broadcast2. rewrite H, Nat.eqb_refl. reflexivity.
Qed.

Lemma zip_with_map_r {A B B' C : Type} (f : A -> B' -> C) (g : B -> B')
  (xs : list A) (ys : list B) :
  zip_with f xs (map g ys) = zip_with (fun x y => f x (g y)) xs ys.
Proof.
  revert ys; induction xs as [| x xs IH]; intros [| y ys]; simpl; auto.
  now rewrite IH.
Qed.

Lemma map_zip_with {A B C D : Type} (g : C -> D) (f : A -> B -> C)
  (xs : list A) (ys : list B) :
  map g (zip_with f xs ys) = zip_with (fun x y => g (f x y)) xs ys.
Proof.
  revert ys; induction xs as [| x xs IH]; intros [| y ys]; simpl; auto.
  now rewrite IH.
Qed.


(** ** The loss variants on paired inputs *)

Ltac solve_length :=
  rewrite ?length_map;
  repeat (rewrite zip_with_length by solve_length; rewrite ?length_map);
  congruence.

Ltac run_broadcast :=
  repeat (rewrite broadcast2_same_length by solve_length;
          unfold ret; cbn [bind]).

Lemma loss1_paired (cfg : Config.loss) (cm rm ck rk : vec) :
  length rm = length cm -> length ck = length cm -> length rk = length cm ->
  loss1 cfg cm rm ck rk =
  inr (vneg (vlogsigmoid (vscale (Config.beta cfg)
         (zip_with sub (zip_with sub cm rm) (zip_with sub rk ck)))),
       vscale (Config.beta cfg) (vdetach (zip_with add cm ck)),
       vscale (Config.beta cfg) (vdetach (zip_with add rm rk))).
Proof.
  intros Hrm Hck Hrk. unfold loss1, vadd, vsub, vdetach, vscale.
  run_broadcast. reflexivity.
Qed.

Lemma loss2_paired (cfg : Config.loss) (cm rm ck rk : vec) :
  length rm = length cm -> length ck = length cm -> length rk = length cm ->
  loss2 cfg cm rm ck rk =
  inr (vneg (vlogsigmoid (vscale (Config.beta cfg)
         (zip_with sub (zip_with sub cm rm)
            (vscale (Config.alpha cfg) (zip_with sub rk (vdetach ck)))))),
       vscale (Config.beta cfg) (vdetach (zip_with add cm ck)),
       vscale (Config.beta cfg) (vdetach (zip_with add rm rk))).
Proof.
  intros Hrm Hck Hrk. unfold loss2, vadd, vsub, vdetach, vscale.
  run_broadcast. reflexivity.
Qed.

Section PairedEntries.

Variables (cfg : Config.loss) (cm rm ck rk : vec) (N i : nat).
Hypotheses (Hcm : length cm = N) (Hrm : length rm = N)
           (Hck : length ck = N) (Hrk : length rk = N) (Hi : (i < N)%nat).

Let cm_i := nth i cm zero.
Let rm_i := nth i rm zero.
Let ck_i := nth i ck zero.
Let rk_i := nth i rk zero.

Lemma loss1_logit_entry :
  nth i (zip_with sub (zip_with sub cm rm) (zip_with sub rk ck)) zero =
  sub (sub cm_i rm_i) (sub rk_i ck_i).
Proof.
  rewrite (zip_with_nth _ _ _ _ zero zero)
    by solve_length.
  rewrite !(zip_with_nth _ _ _ _ zero zero) by congruence. reflexivity.
Qed.

Lemma loss2_logit_entry :
  nth i (zip_with sub (zip_with sub cm rm)
           (vscale (Config.alpha cfg) (zip_with sub rk (vdetach ck)))) zero =
  sub (sub cm_i rm_i) (scale (Config.alpha cfg) (sub rk_i (detach ck_i))).
Proof.
  unfold vscale, vdetach.
  rewrite (zip_with_nth _ _ _ _ zero zero) by solve_length.
  rewrite (nth_map_lt _ _ _ zero) by solve_length.
  rewrite !(zip_with_nth _ _ _ _ zero zero) by solve_length.
  rewrite (nth_map_lt _ _ _ zero) by congruence. reflexivity.
Qed.

Lemma loss_entry (logits : vec) :
  length logits = N ->
  nth i (vneg (vlogsigmoid (vscale (Config.beta cfg) logits))) zero =
  neg (dlogsigmoid (scale (Config.beta cfg) (nth i logits zero))).
Proof.
  intros Hl. unfold vneg, vlogsigmoid, vscale.
  rewrite !(nth_map_lt _ _ _ zero) by solve_length. reflexivity.
Qed.

Lemma reward_entry (xs ys : vec) :
  length xs = N -> length ys = N ->
  nth i (vscale (Config.beta cfg) (vdetach (zip_with add xs ys))) zero =
  const (Config.beta cfg * (primal (nth i xs zero) + primal (nth i ys zero))).
Proof.
  intros Hx Hy. unfold vscale, vdetach.
  rewrite !(nth_map_lt _ _ _ zero) by solve_length.
  rewrite (zip_with_nth _ _ _ _ zero zero) by congruence.
  apply scale_detach.
Qed.

End PairedEntries.

(** C1. On four vectors of one length N, V1 returns, entry by entry, the
    loss -logsigmoid (beta * ((chosen_margin - rejected_margin) -
    (rejected_kl - chosen_kl))) and the rewards beta * (chosen_margin +
    chosen_kl) and beta * (rejected_margin + rejected_kl); the rewards are
    constants of the graph (zero tangent). *)
Theorem loss1_formula (cfg : Config.loss) (cm rm ck rk : vec) (N : nat) :
  length cm = N -> length rm = N -> length ck = N -> length rk = N ->
  exists losses chosen_rewards rejected_rewards,
    loss1 cfg cm rm ck rk = inr (losses, chosen_rewards, rejected_rewards) /\
    length losses = N /\ length chosen_rewards = N /\
    length rejected_rewards = N /\
    forall i, (i < N)%nat ->
      primal (nth i losses zero) =
        - logsigmoid (Config.beta cfg *
            logit1 (primal (nth i cm zero)) (primal (nth i rm zero))
                   (primal (nth i ck zero)) (primal (nth i rk zero))) /\
      nth i chosen_rewards zero =
        const (Config.beta cfg *
                 (primal (nth i cm zero) + primal (nth i ck zero))) /\
      nth i rejected_rewards zero =
        const (Config.beta cfg *
                 (primal (nth i rm zero) + primal (nth i rk zero))).
Proof.
  intros Hcm Hrm Hck Hrk.
  rewrite loss1_paired by congruence.
  eexists _, _, _. split; [reflexivity |].
  split; [unfold vneg, vlogsigmoid, vscale; solve_length |].
  split; [unfold vscale, vdetach; solve_length |].
  split; [unfold vscale, vdetach; solve_length |].
  intros i Hi. split; [| split].
  - rewrite (loss_entry cfg N i Hi) by solve_length.
    rewrite (loss1_logit_entry cm rm ck rk N i) by assumption.
    reflexivity.
  - apply (reward_entry cfg N i Hi); assumption.
  - apply (reward_entry cfg N i Hi); assumption.
Qed.

Lemma loss1_formula_witness :
  exists losses chosen_rewards rejected_rewards,
    loss1 (Config.Build_loss 1 1) [const 2] [const 1] [const 0] [const 0] =
      inr (losses, chosen_rewards, rejected_rewards) /\
    length losses = 1%nat /\ length chosen_rewards = 1%nat /\
    length rejected_rewards = 1%nat /\
    forall i, (i < 1)%nat ->
      primal (nth i losses zero) =
        - logsigmoid (1 *
            logit1 (primal (nth i [const 2] zero)) (primal (nth i [const 1] zero))
                   (primal (nth i [const 0] zero)) (primal (nth i [const 0] zero))) /\
      nth i chosen_rewards zero =
        const (1 * (primal (nth i [const 2] zero) +
                    primal (nth i [const 0] zero))) /\
      nth i rejected_rewards zero =
        const (1 * (primal (nth i [const 1] zero) +
                    primal (nth i [const 0] zero))).
Proof.
  apply (loss1_formula (Config.Build_loss 1 1)
           [const 2] [const 1] [const 0] [const 0] 1); reflexivity.
Defined.

Lemma vdetach_same_values (xs ys : vec) :
  same_values xs ys -> vdetach xs = vdetach ys.
Proof.
  unfold same_values, vdetach, detach. intros H.
  rewrite <- (map_map primal const xs), <- (map_map primal const ys).
  now rewrite H.
Qed.

Lemma vdetach_zip_with_add (xs ys : vec) :
  vdetach (zip_with add xs ys) =
  zip_with (fun x y => const (primal x + primal y)) xs (vdetach ys).
Proof.
  unfold vdetach. rewrite map_zip_with, zip_with_map_r. reflexivity.
Qed.

(** C2. On four vectors of one length N, the V2 logit is margin_diff -
    alpha * (rejected_kl - chosen_kl) in value, while its tangent is that of
    margin_diff - alpha * rejected_kl: the tangent of chosen_kl does not
    enter the loss.  Replacing chosen_kl by any vector with the same
    forward values leaves losses and rewards unchanged. *)
Theorem loss2_chosen_kl_detached (cfg : Config.loss) (cm rm ck rk : vec) (N : nat) :
  length cm = N -> length rm = N -> length ck = N -> length rk = N ->
  exists losses chosen_rewards rejected_rewards,
    loss2 cfg cm rm ck rk = inr (losses, chosen_rewards, rejected_rewards) /\
    (forall i, (i < N)%nat ->
       let g := Config.beta cfg *
                logit2 (Config.alpha cfg)
                  (primal (nth i cm zero)) (primal (nth i rm zero))
                  (primal (nth i ck zero)) (primal (nth i rk zero)) in
       primal (nth i losses zero) = - logsigmoid g /\
       tangent (nth i losses zero) =
         - ((1 - sigmoid g) *
            (Config.beta cfg *
               ((tangent (nth i cm zero) - tangent (nth i rm zero)) -
                Config.alpha cfg * tangent (nth i rk zero))))) /\
    (forall ck', same_values ck ck' ->
       loss2 cfg cm rm ck' rk = inr (losses, chosen_rewards, rejected_rewards)).
Proof.
  intros Hcm Hrm Hck Hrk.
  rewrite loss2_paired by congruence.
  eexists _, _, _. split; [reflexivity |]. split.
  - intros i Hi g.
    rewrite (loss_entry cfg N i Hi) by (unfold vscale, vdetach; solve_length).
    rewrite (loss2_logit_entry cfg cm rm ck rk N i) by assumption.
    subst g. unfold logit2. simpl. split; [reflexivity | ring].
  - intros ck' Hsame.
    assert (Hck' : length ck' = N).
    { rewrite <- Hck, <- (length_map primal ck'), <- Hsame. apply length_map. }
    rewrite loss2_paired by congruence.
    rewrite !vdetach_zip_with_add, (vdetach_same_values ck ck' Hsame).
    reflexivity.
Qed.

Lemma loss2_chosen_kl_detached_witness :
  exists losses chosen_rewards rejected_rewards,
    loss2 (Config.Build_loss 1 2) [const 2] [const 1] [mk 3 1] [const 0] =
      inr (losses, chosen_rewards, rejected_rewards) /\
    (forall i, (i < 1)%nat ->
       let g := 1 * logit2 2
                  (primal (nth i [const 2] zero)) (primal (nth i [const 1] zero))
                  (primal (nth i [mk 3 1] zero)) (primal (nth i [const 0] zero)) in
       primal (nth i losses zero) = - logsigmoid g /\
       tangent (nth i losses zero) =
         - ((1 - sigmoid g) *
            (1 * ((tangent (nth i [const 2] zero) -
                   tangent (nth i [const 1] zero)) -
                  2 * tangent (nth i [const 0] zero))))) /\
    (forall ck', same_values [mk 3 1] ck' ->
       loss2 (Config.Build_loss 1 2) [const 2] [const 1] ck' [const 0] =
         inr (losses, chosen_rewards, rejected_rewards)).
Proof.
  apply (loss2_chosen_kl_detached (Config.Build_loss 1 2)
           [const 2] [const 1] [mk 3 1] [const 0] 1); reflexivity.
Defined.

(** C7, amended.  In exact arithmetic, with beta > 0 and everything else
    fixed, a larger chosen_margin at an index gives a strictly smaller V1
    loss at that index.  ([loss1_saturates_on_floats] shows that strictness
    is lost on floats.) *)
Theorem loss1_strictly_decreasing_in_chosen_margin
  (cfg : Config.loss) (cm cm' rm ck rk : vec) (N : nat) :
  0 < Config.beta cfg ->
  length cm = N -> length cm' = N -> length rm = N -> length ck = N ->
  length rk = N ->
  exists losses cr rr losses' cr' rr',
    loss1 cfg cm rm ck rk = inr (losses, cr, rr) /\
    loss1 cfg cm' rm ck rk = inr (losses', cr', rr') /\
    forall i, (i < N)%nat ->
      primal (nth i cm zero) < primal (nth i cm' zero) ->
      primal (nth i losses' zero) < primal (nth i losses zero).
Proof.
  intros Hbeta Hcm Hcm' Hrm Hck Hrk.
  rewrite !loss1_paired by congruence.
  eexists _, _, _, _, _, _. split; [reflexivity |]. split; [reflexivity |].
  intros i Hi Hlt.
  rewrite !(loss_entry cfg N i Hi) by solve_length.
  rewrite (loss1_logit_entry cm rm ck rk N i) by assumption.
  rewrite (loss1_logit_entry cm' rm ck rk N i) by assumption.
  simpl. apply neg_logsigmoid_strictly_decreasing.
  apply Rmult_lt_compat_l; [exact Hbeta | lra].
Qed.

Lemma loss1_strictly_decreasing_in_chosen_margin_witness :
  exists losses cr rr losses' cr' rr',
    loss1 (Config.Build_loss 1 1) [const 0] [const 0] [const 0] [const 0] =
      inr (losses, cr, rr) /\
    loss1 (Config.Build_loss 1 1) [const 1] [const 0] [const 0] [const 0] =
      inr (losses', cr', rr') /\
    forall i, (i < 1)%nat ->
      primal (nth i [const 0] zero) < primal (nth i [const 1] zero) ->
      primal (nth i losses' zero) < primal (nth i losses zero).
Proof.
  apply (loss1_strictly_decreasing_in_chosen_margin (Config.Build_loss 1 1)
           [const 0] [const 1] [const 0] [const 0] [const 0] 1);
    [simpl; lra | reflexivity ..].
Defined.

(** ** Forward values through broadcasting *)






Lemma same_outcome_bind {A B : Type} (relA : A -> A -> Prop) (relB : B -> B -> Prop)
  (m m' : result A) (k k' : A -> result B) :
  same_outcome relA m m' ->
  (forall a a', relA a a' -> same_outcome relB (k a) (k' a')) ->
  same_outcome relB (bind m k) (bind m' k').
Proof.
  intros Hm Hk. destruct m as [e | a], m' as [e' | a']; simpl in *;
    try contradiction; auto.
Qed.

Lemma same_outcome_refl {A : Type} (rel : A -> A -> Prop) (m : result A) :
  (forall a, rel a a) -> same_outcome rel m m.
Proof. intros H. destruct m; simpl; auto. Qed.




(** ** Sums, counts and broadcasting *)

Lemma dsum_ext (n : nat) (f g : nat -> dual) :
  (forall i, (i < n)%nat -> f i = g i) -> dsum n f = dsum n g.
Proof.
  induction n as [| n IH]; intros H; simpl; [reflexivity |].
  rewrite IH by (intros i Hi; apply H; lia). rewrite H by lia. reflexivity.
Qed.

Lemma count_ext (n : nat) (f g : nat -> bool) :
  (forall i, (i < n)%nat -> f i = g i) -> count n f = count n g.
Proof.
  induction n as [| n IH]; intros H; simpl; [reflexivity |].
  rewrite IH by (intros i Hi; apply H; lia). rewrite H by lia. reflexivity.
Qed.

Lemma dsum_zero (n : nat) (f : nat -> dual) :
  (forall i, (i < n)%nat -> f i = zero) -> dsum n f = zero.
Proof.
  induction n as [| n IH]; intros H; simpl; [reflexivity |].
  rewrite IH by (intros i Hi; apply H; lia). rewrite H by lia.
  apply add_zero_r.
Qed.

Lemma count_zero (n : nat) (f : nat -> bool) :
  (forall i, (i < n)%nat -> f i = false) -> count n f = 0%Z.
Proof.
  induction n as [| n IH]; intros H; simpl; [reflexivity |].
  rewrite IH by (intros i Hi; apply H; lia). rewrite H by lia. reflexivity.
Qed.


Lemma primal_dsum_nonneg (n : nat) (f : nat -> dual) :
  (forall i, (i < n)%nat -> 0 <= primal (f i)) -> 0 <= primal (dsum n f).
Proof.
  induction n as [| n IH]; intros H; simpl; [lra |].
  assert (0 <= primal (dsum n f)) by (apply IH; intros i Hi; apply H; lia).
  assert (0 <= primal (f n)) by (apply H; lia). lra.
Qed.

Lemma bidx_lt (n i : nat) : (i < n)%nat -> bidx n i = i.
Proof.
  unfold bidx. destruct (Nat.eqb_spec n 1); [lia | reflexivity].
Qed.

Lemma bidx_bound (n m w i : nat) :
  bdim n m = Some w -> (i < w)%nat -> (bidx n i < n)%nat /\ (bidx m i < m)%nat.
Proof.
  unfold bdim, bidx.
  destruct (Nat.eqb_spec n m), (Nat.eqb_spec n 1), (Nat.eqb_spec m 1);
    intros H Hi; inversion H; subst; lia.
Qed.

Lemma bdim_same (n : nat) : bdim n n = Some n.
Proof. unfold bdim. now rewrite Nat.eqb_refl. Qed.

Lemma bdim_absorb (n m w : nat) : bdim n m = Some w -> bdim n w = Some w.
Proof.
  unfold bdim.
  destruct (Nat.eqb_spec n m), (Nat.eqb_spec n 1), (Nat.eqb_spec m 1);
    intros H; inversion H; subst; rewrite ?Nat.eqb_refl; try reflexivity.
  destruct (Nat.eqb_spec 1 w); [subst; reflexivity | reflexivity].
Qed.

Lemma map2_2_same_shape {A B C : Type} (f : A -> B -> C) (n0 n1 : nat)
  (fx : nat -> nat -> A) (fy : nat -> nat -> B) :
  map2_2 f (T2.mk n0 n1 fx) (T2.mk n0 n1 fy) =
  inr (T2.mk n0 n1 (fun b i =>
         f (fx (bidx n0 b) (bidx n1 i)) (fy (bidx n0 b) (bidx n1 i)))).
Proof. unfold map2_2. simpl. rewrite !bdim_same. reflexivity. Qed.

Lemma map2_3_same_rows {A B C : Type} (f : A -> B -> C) (n0 n1 n2 m2 w : nat)
  (fx : nat -> nat -> nat -> A) (fy : nat -> nat -> nat -> B) :
  bdim n2 m2 = Some w ->
  map2_3 f (T3.mk n0 n1 n2 fx) (T3.mk n0 n1 m2 fy) =
  inr (T3.mk n0 n1 w (fun b i v =>
         f (fx (bidx n0 b) (bidx n1 i) (bidx n2 v))
           (fy (bidx n0 b) (bidx n1 i) (bidx m2 v)))).
Proof. intros H. unfold map2_3. simpl. rewrite !bdim_same, H. reflexivity. Qed.

Lemma map2_3_mismatch {A B C : Type} (f : A -> B -> C) (n0 n1 n2 m2 : nat)
  (fx : nat -> nat -> nat -> A) (fy : nat -> nat -> nat -> B) :
  bdim n2 m2 = None ->
  map2_3 f (T3.mk n0 n1 n2 fx) (T3.mk n0 n1 m2 fy) = inl RuntimeError.
Proof. intros H. unfold map2_3. simpl. rewrite !bdim_same, H. reflexivity. Qed.

Lemma in_seq_0 (n b : nat) : In b (seq 0 n) -> (b < n)%nat.
Proof. intros H. apply in_seq in H. lia. Qed.

Lemma all_indices_ok_spec (n : nat) (index : T2.t Z) :
  all_indices_ok n index = true <->
  forall b i, (b < T2.d0 index)%nat -> (i < T2.d1 index)%nat ->
              index_ok n (T2.at_ index b i) = true.
Proof.
  unfold all_indices_ok. rewrite forallb_forall. split.
  - intros H b i Hb Hi.
    assert (Hin : In b (seq 0 (T2.d0 index))) by (apply in_seq; lia).
    specialize (H b Hin). rewrite forallb_forall in H.
    apply H, in_seq. lia.
  - intros H b Hb. apply forallb_forall. intros i Hi.
    apply H; eapply in_seq_0; eassumption.
Qed.

Lemma index_ok_to_nat (n : nat) (k : Z) :
  index_ok n k = true -> (Z.to_nat k < n)%nat.
Proof.
  unfold index_ok. rewrite andb_true_iff, Z.leb_le, Z.ltb_lt. lia.
Qed.

(** ** The aligner in closed form *)

Lemma leb_refl_andb (n m : nat) (c : bool) :
  (Nat.leb n n && Nat.leb m m && c) = c.
Proof. now rewrite !Nat.leb_refl. Qed.

Lemma row_sums_ext (n0 n1 : nat) (q q' : nat -> nat -> dual) :
  (forall b i, (b < n0)%nat -> (i < n1)%nat -> q b i = q' b i) ->
  row_sums (T2.mk n0 n1 q) = map (fun b => dsum n1 (q' b)) (seq 0 n0).
Proof.
  intros H. unfold row_sums. cbn [T2.d0 T2.d1 T2.at_].
  apply map_ext_in. intros b Hb. apply in_seq_0 in Hb.
  apply dsum_ext. intros i Hi. now apply H.
Qed.

Lemma tdpo_get_batch_logps_closed_form
  (lg rf : T3.t dual) (lab : T2.t Z) (avg : bool) :
  tdpo_get_batch_logps lg rf lab avg =
  if shapes_ok lg rf lab
  then if runtime_ok lg rf lab
       then inr (closed_form lg rf lab avg)
       else inl RuntimeError
  else inl AssertionError.
Proof.
  unfold tdpo_get_batch_logps, shapes_ok, assert_.
  destruct lg as [B0 L0 V f], rf as [B1 L1 Vr g], lab as [B L h].
  unfold shape_eqb, T3.shape_init, T2.shape. cbn [fst snd T3.d0 T3.d1 T2.d0 T2.d1].
  destruct (Nat.eqb_spec B0 B); [subst B0 | reflexivity].
  destruct (Nat.eqb_spec L0 L); [subst L0 | reflexivity].
  destruct (Nat.eqb_spec B1 B); [subst B1 | reflexivity].
  destruct (Nat.eqb_spec L1 L); [subst L1 | reflexivity].
  cbn [andb bind ret].
  unfold runtime_ok, closed_form, masked_sums, mask_counts, kl_at, kl_width,
    margin_at, token_logp_at, reference_token_logp_at, label_at, mask_at,
    shifted_labels, log_prob, prob, sum_exp.
  cbv beta iota zeta delta [T2.tail1 T3.init1 T2.map T3.map log_softmax softmax
     T3.sum_last T2.d0 T2.d1 T2.at_ T3.d0 T3.d1 T3.d2 T3.at_].
  destruct (bdim Vr V) as [W |] eqn:HW;
    [| rewrite (map2_3_mismatch _ _ _ _ _ _ _ HW); reflexivity].
  rewrite (map2_3_same_rows _ _ _ _ _ _ _ _ HW). cbn [bind].
  rewrite (map2_3_same_rows _ _ _ _ _ _ _ _ (bdim_absorb _ _ _ HW)). cbn [bind].
  unfold gather_last. cbn [T2.d0 T2.d1 T2.at_ T3.d0 T3.d1 T3.d2 T3.at_].
  rewrite !leb_refl_andb.
  match goal with |- context [all_indices_ok V ?t] =>
    destruct (all_indices_ok V t) eqn:HV end; [| reflexivity].
  cbn [bind ret andb]. rewrite map2_2_same_shape. cbn [bind].
  match goal with |- context [all_indices_ok Vr ?t] =>
    destruct (all_indices_ok Vr t) eqn:HVr end; [| reflexivity].
  cbn [bind ret].
  repeat (rewrite map2_2_same_shape; cbn [bind]).
  destruct avg.
  - repeat (rewrite map2_2_same_shape; cbn [bind]).
    unfold vdiv_count, row_counts. cbn [T2.d0 T2.d1 T2.at_].
    repeat (rewrite broadcast2_same_length
              by (unfold row_sums; rewrite !length_map; reflexivity);
            unfold ret; cbn [bind]).
    apply f_equal. apply f_equal2; [apply f_equal2 |];
      (apply (f_equal2 (zip_with div_count)); [| reflexivity]);
      apply row_sums_ext; intros b i Hb Hi;
      rewrite ?(bidx_lt B b Hb), ?(bidx_lt (L - 1) i Hi); try reflexivity.
    f_equal. apply dsum_ext. intros v Hv. rewrite (bidx_lt W v Hv). reflexivity.
  - repeat (rewrite map2_2_same_shape; cbn [bind]). unfold ret.
    apply f_equal. apply f_equal2; [apply f_equal2 |];
      apply row_sums_ext; intros b i Hb Hi;
      rewrite ?(bidx_lt B b Hb), ?(bidx_lt (L - 1) i Hi); try reflexivity.
    f_equal. apply dsum_ext. intros v Hv. rewrite (bidx_lt W v Hv). reflexivity.
Qed.

Lemma masked_sums_length (lab : T2.t Z) (q : nat -> nat -> dual) :
  length (masked_sums lab q) = T2.d0 lab.
Proof. unfold masked_sums. now rewrite length_map, length_seq. Qed.

Lemma mask_counts_length (lab : T2.t Z) : length (mask_counts lab) = T2.d0 lab.
Proof. unfold mask_counts. now rewrite length_map, length_seq. Qed.

Lemma masked_sums_nth (lab : T2.t Z) (q : nat -> nat -> dual) (b : nat) :
  (b < T2.d0 lab)%nat ->
  nth b (masked_sums lab q) zero =
  dsum (T2.d1 lab - 1) (fun i => mul_mask (q b i) (mask_at lab b i)).
Proof.
  intros Hb. unfold masked_sums.
  rewrite (nth_map_lt _ _ _ O) by (now rewrite length_seq).
  now rewrite seq_nth.
Qed.

Lemma mask_counts_nth (lab : T2.t Z) (b : nat) :
  (b < T2.d0 lab)%nat ->
  nth b (mask_counts lab) 0%Z = count (T2.d1 lab - 1) (mask_at lab b).
Proof.
  intros Hb. unfold mask_counts.
  rewrite (nth_map_lt _ _ _ O) by (now rewrite length_seq).
  now rewrite seq_nth.
Qed.

Lemma tdpo_get_batch_logps_returns
  (lg rf : T3.t dual) (lab : T2.t Z) (avg : bool) :
  shapes_ok lg rf lab = true -> runtime_ok lg rf lab = true ->
  tdpo_get_batch_logps lg rf lab avg = inr (closed_form lg rf lab avg).
Proof.
  intros Hs Hr. now rewrite tdpo_get_batch_logps_closed_form, Hs, Hr.
Qed.





(** X23. In exact arithmetic, a sequence whose shifted labels are all the
    sentinel gets exactly zero in the three sums and the quotient 0/0 (NaN)
    in the three averages, all six vectors having one entry per sequence.
    ([all_masked_sequence_nan_on_floats] shows what the sums are on floats
    when the reference probability of a token underflows.) *)
Theorem all_masked_sequence
  (lg rf : T3.t dual) (lab : T2.t Z) (b : nat) :
  shapes_ok lg rf lab = true -> runtime_ok lg rf lab = true ->
  (b < T2.d0 lab)%nat ->
  (forall i, (i < T2.d1 lab - 1)%nat -> T2.at_ lab b (S i) = SENTINEL) ->
  (exists logps_margin position_kl logps,
     tdpo_get_batch_logps lg rf lab false =
       inr (logps_margin, position_kl, logps) /\
     length logps_margin = T2.d0 lab /\
     length position_kl = T2.d0 lab /\
     length logps = T2.d0 lab /\
     nth b logps_margin zero = zero /\
     nth b position_kl zero = zero /\
     nth b logps zero = zero) /\
  (exists logps_margin position_kl logps,
     tdpo_get_batch_logps lg rf lab true =
       inr (logps_margin, position_kl, logps) /\
     length logps_margin = T2.d0 lab /\
     length position_kl = T2.d0 lab /\
     length logps = T2.d0 lab /\
     nth b logps_margin (Fin zero) = ZeroDiv zero /\
     nth b position_kl (Fin zero) = ZeroDiv zero /\
     nth b logps (Fin zero) = ZeroDiv zero /\
     is_nan (nth b logps_margin (Fin zero)) /\
     is_nan (nth b position_kl (Fin zero)) /\
     is_nan (nth b logps (Fin zero))).
Proof.
  intros Hs Hr Hb Hmasked.
  assert (Hmask : forall i, (i < T2.d1 lab - 1)%nat -> mask_at lab b i = false).
  { intros i Hi. unfold mask_at. rewrite (Hmasked i Hi). reflexivity. }
  assert (Hsum : forall q, nth b (masked_sums lab q) zero = zero).
  { intros q. rewrite masked_sums_nth by exact Hb.
    apply dsum_zero. intros i Hi. rewrite (Hmask i Hi). apply mul_mask_false. }
  assert (Hcount : nth b (mask_counts lab) 0%Z = 0%Z).
  { rewrite mask_counts_nth by exact Hb. now apply count_zero. }
  assert (Hquot : forall q,
             nth b (zip_with div_count (masked_sums lab q) (mask_counts lab))
                 (Fin zero) = ZeroDiv zero).
  { intros q.
    rewrite (zip_with_nth _ _ _ _ zero 0%Z)
      by (rewrite masked_sums_length, ?mask_counts_length; auto).
    rewrite Hsum, Hcount. reflexivity. }
  assert (Hlen : forall q,
             length (zip_with div_count (masked_sums lab q) (mask_counts lab))
             = T2.d0 lab).
  { intros q. rewrite zip_with_length
      by (now rewrite masked_sums_length, mask_counts_length).
    apply masked_sums_length. }
  split.
  - rewrite (tdpo_get_batch_logps_returns lg rf lab false Hs Hr).
    eexists _, _, _. split; [reflexivity |].
    rewrite !masked_sums_length. repeat split; apply Hsum.
  - rewrite (tdpo_get_batch_logps_returns lg rf lab true Hs Hr).
    eexists _, _, _. split; [reflexivity |].
    rewrite !Hquot, !Hlen. simpl. repeat split; reflexivity.
Qed.

Lemma all_masked_sequence_witness :
  (exists logps_margin position_kl logps,
     tdpo_get_batch_logps zero_logits_1_2_1 zero_logits_1_2_1
       labels_all_masked false = inr (logps_margin, position_kl, logps) /\
     length logps_margin = 1%nat /\
     length position_kl = 1%nat /\
     length logps = 1%nat /\
     nth 0 logps_margin zero = zero /\
     nth 0 position_kl zero = zero /\
     nth 0 logps zero = zero) /\
  (exists logps_margin position_kl logps,
     tdpo_get_batch_logps zero_logits_1_2_1 zero_logits_1_2_1
       labels_all_masked true = inr (logps_margin, position_kl, logps) /\
     length logps_margin = 1%nat /\
     length position_kl = 1%nat /\
     length logps = 1%nat /\
     nth 0 logps_margin (Fin zero) = ZeroDiv zero /\
     nth 0 position_kl (Fin zero) = ZeroDiv zero /\
     nth 0 logps (Fin zero) = ZeroDiv zero /\
     is_nan (nth 0 logps_margin (Fin zero)) /\
     is_nan (nth 0 position_kl (Fin zero)) /\
     is_nan (nth 0 logps (Fin zero))).
Proof.
  apply (all_masked_sequence zero_logits_1_2_1 zero_logits_1_2_1
           labels_all_masked 0).
  - reflexivity.
  - reflexivity.
  - simpl. lia.
  - intros i Hi. reflexivity.
Defined.

(** ** Gibbs' inequality for the per-position divergence *)

Lemma rsum_ext (n : nat) (f g : nat -> R) :
  (forall i, (i < n)%nat -> f i = g i) -> rsum n f = rsum n g.
Proof.
  induction n as [| n IH]; intros H; simpl; [reflexivity |].
  rewrite IH by (intros i Hi; apply H; lia). rewrite H by lia. reflexivity.
Qed.

Lemma rsum_le (n : nat) (f g : nat -> R) :
  (forall i, (i < n)%nat -> f i <= g i) -> rsum n f <= rsum n g.
Proof.
  induction n as [| n IH]; intros H; simpl; [lra |].
  assert (rsum n f <= rsum n g) by (apply IH; intros i Hi; apply H; lia).
  assert (f n <= g n) by (apply H; lia). lra.
Qed.

Lemma rsum_minus (n : nat) (f g : nat -> R) :
  rsum n (fun i => f i - g i) = rsum n f - rsum n g.
Proof. induction n as [| n IH]; simpl; [| rewrite IH]; ring. Qed.

Lemma rsum_div (n : nat) (f : nat -> R) (c : R) :
  rsum n (fun i => f i / c) = rsum n f / c.
Proof.
  unfold Rdiv. induction n as [| n IH]; simpl; [| rewrite IH]; ring.
Qed.

Lemma rsum_exp_pos (n : nat) (f : nat -> R) :
  (0 < n)%nat -> 0 < rsum n (fun i => exp (f i)).
Proof.
  induction n as [| n IH]; intros Hn; [lia |]. simpl.
  pose proof (exp_pos (f n)).
  destruct n as [| n]; [simpl; lra |].
  assert (0 < rsum (S n) (fun i => exp (f i))) by (apply IH; lia). lra.
Qed.

Lemma primal_dsum_rsum (n : nat) (f : nat -> dual) :
  primal (dsum n f) = rsum n (fun i => primal (f i)).
Proof. induction n as [| n IH]; simpl; [| rewrite IH]; reflexivity. Qed.

Lemma ln_le_minus_1 (x : R) : 0 < x -> ln x <= x - 1.
Proof.
  intros Hx. pose proof (exp_ineq1_le (ln x)) as H.
  rewrite exp_ln in H by exact Hx. lra.
Qed.

Lemma gibbs_term (p q : R) : 0 < p -> 0 < q -> p - q <= p * (ln p - ln q).
Proof.
  intros Hp Hq.
  assert (Hpq : 0 < q / p) by (apply Rdiv_lt_0_compat; assumption).
  pose proof (ln_le_minus_1 (q / p) Hpq) as H.
  unfold Rdiv in H. rewrite ln_mult in H by (auto using Rinv_0_lt_compat).
  rewrite ln_Rinv in H by exact Hp.
  assert (p * (ln q + - ln p) <= p * (q * / p - 1))
    by (apply Rmult_le_compat_l; lra).
  replace (p * (q * / p - 1)) with (q - p) in * by (field; lra).
  lra.
Qed.

Lemma ln_softmax (x z : R) : 0 < z -> x - ln z = ln (exp x / z).
Proof.
  intros Hz. unfold Rdiv.
  rewrite ln_mult by (auto using exp_pos, Rinv_0_lt_compat).
  rewrite ln_exp, ln_Rinv by exact Hz. ring.
Qed.

(** KL(softmax r || softmax x) over a vocabulary of [n] tokens. *)
Lemma gibbs (n : nat) (x r : nat -> R) :
  0 <= rsum n (fun v =>
         exp (r v) / rsum n (fun w => exp (r w)) *
         (ln (exp (r v) / rsum n (fun w => exp (r w))) -
          (x v - ln (rsum n (fun w => exp (x w)))))).
Proof.
  destruct n as [| n]; [simpl; lra |].
  set (zr := rsum (S n) (fun w => exp (r w))).
  set (zx := rsum (S n) (fun w => exp (x w))).
  assert (Hzr : 0 < zr) by (apply rsum_exp_pos; lia).
  assert (Hzx : 0 < zx) by (apply rsum_exp_pos; lia).
  apply Rle_trans with
    (rsum (S n) (fun v => exp (r v) / zr - exp (x v) / zx)).
  - rewrite rsum_minus, !rsum_div. fold zr zx.
    replace (zr / zr - zx / zx) with 0 by (field; lra). lra.
  - apply rsum_le. intros v _.
    rewrite (ln_softmax (x v) zx Hzx).
    apply gibbs_term; apply Rdiv_lt_0_compat; auto using exp_pos.
Qed.

Lemma primal_sum_exp (x : T3.t dual) (b i : nat) :
  primal (sum_exp x b i) =
  rsum (T3.d2 x) (fun w => exp (primal (T3.at_ x b i w))).
Proof. unfold sum_exp. now rewrite primal_dsum_rsum. Qed.

Lemma kl_at_nonneg (lg rf : T3.t dual) (b i : nat) :
  T3.d2 lg = T3.d2 rf -> 0 <= primal (kl_at lg rf b i).
Proof.
  intros Hv. unfold kl_at, kl_width. rewrite <- Hv, bdim_same.
  rewrite primal_dsum_rsum.
  rewrite (rsum_ext _ _ (fun v =>
    exp (primal (T3.at_ rf b i v)) /
      rsum (T3.d2 lg) (fun w => exp (primal (T3.at_ rf b i w))) *
    (ln (exp (primal (T3.at_ rf b i v)) /
           rsum (T3.d2 lg) (fun w => exp (primal (T3.at_ rf b i w)))) -
     (primal (T3.at_ lg b i v) -
      ln (rsum (T3.d2 lg) (fun w => exp (primal (T3.at_ lg b i w)))))))).
  - apply gibbs.
  - intros v Hvlt. rewrite (bidx_lt _ _ Hvlt).
    unfold prob, log_prob. cbn [primal mul sub dlog div dexp].
    rewrite !primal_sum_exp, <- Hv. reflexivity.
Qed.

Lemma primal_mul_mask_nonneg (x : dual) (m : bool) :
  0 <= primal x -> 0 <= primal (mul_mask x m).
Proof. intros H. destruct m; simpl; lra. Qed.

(** C10, as stated, fails: the shape assertions do not compare the
    vocabulary sizes, and a one-token policy vocabulary broadcasts against
    a two-token reference vocabulary.  On all-zero logits the call returns
    position_kl = - ln 2. *)
Lemma position_kl_negative_on_unequal_vocabularies :
  exists logps_margin position_kl logps,
    tdpo_get_batch_logps zero_logits_1_2_1 zero_logits_1_2_2 labels_0_0 false =
      inr (logps_margin, position_kl, logps) /\
    primal (nth 0 position_kl zero) < 0.
Proof.
  rewrite tdpo_get_batch_logps_returns by reflexivity.
  eexists _, _, _. split; [reflexivity |].
  rewrite masked_sums_nth by (simpl; lia).
  simpl. rewrite exp_0.
  replace (1 / (0 + 1 + 1)) with (/ 2) by lra.
  replace (0 + 1) with 1 by lra.
  rewrite ln_1, ln_Rinv by lra.
  pose proof ln_lt_2. lra.
Qed.

(** C10, amended.  When the call returns and the two logits tensors have
    the same vocabulary size, every entry of the summed position_kl is
    nonnegative. *)
Theorem position_kl_nonneg (lg rf : T3.t dual) (lab : T2.t Z) :
  shapes_ok lg rf lab = true -> runtime_ok lg rf lab = true ->
  T3.d2 lg = T3.d2 rf ->
  exists logps_margin position_kl logps,
    tdpo_get_batch_logps lg rf lab false =
      inr (logps_margin, position_kl, logps) /\
    length position_kl = T2.d0 lab /\
    forall b, (b < T2.d0 lab)%nat -> 0 <= primal (nth b position_kl zero).
Proof.
  intros Hs Hr Hv.
  rewrite (tdpo_get_batch_logps_returns lg rf lab false Hs Hr).
  eexists _, _, _. split; [reflexivity |]. split; [apply masked_sums_length |].
  intros b Hb. rewrite masked_sums_nth by exact Hb.
  apply primal_dsum_nonneg. intros i _.
  apply primal_mul_mask_nonneg, kl_at_nonneg, Hv.
Qed.

Lemma position_kl_nonneg_witness :
  exists logps_margin position_kl logps,
    tdpo_get_batch_logps zero_logits_1_2_1 zero_logits_1_2_1 labels_0_0 false =
      inr (logps_margin, position_kl, logps) /\
    length position_kl = 1%nat /\
    forall b, (b < 1)%nat -> 0 <= primal (nth b position_kl zero).
Proof.
  apply (position_kl_nonneg zero_logits_1_2_1 zero_logits_1_2_1 labels_0_0);
    reflexivity.
Defined.

(** ** The aligner reads its arguments only through the shifted slices *)

Section RowAgreement.

Variables (x y : T3.t dual) (b i : nat).
Hypothesis Hd2 : T3.d2 x = T3.d2 y.
Hypothesis Hrow :
  forall v, (v < T3.d2 x)%nat -> T3.at_ x b i v = T3.at_ y b i v.

Lemma sum_exp_agree : sum_exp x b i = sum_exp y b i.
Proof.
  unfold sum_exp. rewrite <- Hd2. apply dsum_ext.
  intros v Hv. now rewrite Hrow.
Qed.

Lemma log_prob_agree (v : nat) :
  (v < T3.d2 x)%nat -> log_prob x b i v = log_prob y b i v.
Proof. intros Hv. unfold log_prob. now rewrite sum_exp_agree, Hrow. Qed.

Lemma prob_agree (v : nat) :
  (v < T3.d2 x)%nat -> prob x b i v = prob y b i v.
Proof. intros Hv. unfold prob. now rewrite sum_exp_agree, Hrow. Qed.

End RowAgreement.

Lemma kl_at_agree (lg1 rf1 lg2 rf2 : T3.t dual) (b i : nat) :
  T3.d2 lg1 = T3.d2 lg2 -> T3.d2 rf1 = T3.d2 rf2 ->
  (forall v, (v < T3.d2 lg1)%nat -> T3.at_ lg1 b i v = T3.at_ lg2 b i v) ->
  (forall v, (v < T3.d2 rf1)%nat -> T3.at_ rf1 b i v = T3.at_ rf2 b i v) ->
  kl_at lg1 rf1 b i = kl_at lg2 rf2 b i.
Proof.
  intros Hlg Hrf Hl Hr. unfold kl_at, kl_width. rewrite <- Hlg, <- Hrf.
  destruct (bdim (T3.d2 rf1) (T3.d2 lg1)) as [w |] eqn:Hw; [| reflexivity].
  apply dsum_ext. intros v Hv.
  destruct (bidx_bound _ _ _ v Hw Hv) as [Hvr Hvl].
  rewrite (prob_agree rf1 rf2 b i Hrf Hr _ Hvr).
  rewrite (log_prob_agree lg1 lg2 b i Hlg Hl _ Hvl).
  reflexivity.
Qed.

Lemma all_indices_ok_agree (n : nat) (s t : T2.t Z) :
  agree2 s t -> all_indices_ok n s = all_indices_ok n t.
Proof.
  intros (H0 & H1 & Hat). apply eq_true_iff_eq.
  rewrite !all_indices_ok_spec. rewrite <- H0, <- H1.
  split; intros H b i Hb Hi.
  - rewrite <- Hat by assumption. now apply H.
  - rewrite Hat by assumption. now apply H.
Qed.

Lemma masked_sums_agree (lab1 lab2 : T2.t Z) (q1 q2 : nat -> nat -> dual) :
  T2.d0 lab1 = T2.d0 lab2 -> T2.d1 lab1 = T2.d1 lab2 ->
  (forall b i, (b < T2.d0 lab1)%nat -> (i < T2.d1 lab1 - 1)%nat ->
     mask_at lab1 b i = mask_at lab2 b i /\ q1 b i = q2 b i) ->
  masked_sums lab1 q1 = masked_sums lab2 q2.
Proof.
  intros H0 H1 H. unfold masked_sums. rewrite <- H0, <- H1.
  apply map_ext_in. intros b Hb. apply in_seq_0 in Hb.
  apply dsum_ext. intros i Hi. destruct (H b i Hb Hi) as [-> ->]. reflexivity.
Qed.

Lemma mask_counts_agree (lab1 lab2 : T2.t Z) :
  T2.d0 lab1 = T2.d0 lab2 -> T2.d1 lab1 = T2.d1 lab2 ->
  (forall b i, (b < T2.d0 lab1)%nat -> (i < T2.d1 lab1 - 1)%nat ->
     mask_at lab1 b i = mask_at lab2 b i) ->
  mask_counts lab1 = mask_counts lab2.
Proof.
  intros H0 H1 H. unfold mask_counts. rewrite <- H0, <- H1.
  apply map_ext_in. intros b Hb. apply in_seq_0 in Hb.
  apply count_ext. intros i Hi. now apply H.
Qed.

Lemma shifted_labels_agree (lab1 lab2 : T2.t Z) :
  agree2 (T2.tail1 lab1) (T2.tail1 lab2) ->
  agree2 (shifted_labels lab1) (shifted_labels lab2).
Proof.
  intros (H0 & H1 & Hat). unfold shifted_labels.
  split; [exact H0 | split; [exact H1 |]].
  intros b i Hb Hi. cbn [T2.map T2.at_]. now rewrite (Hat b i Hb Hi).
Qed.

Lemma tdpo_get_batch_logps_agree
  (lg1 rf1 : T3.t dual) (lab1 : T2.t Z)
  (lg2 rf2 : T3.t dual) (lab2 : T2.t Z) (avg : bool) :
  T3.d1 lg1 = T3.d1 lg2 -> T3.d1 rf1 = T3.d1 rf2 -> T2.d1 lab1 = T2.d1 lab2 ->
  agree2 (T2.tail1 lab1) (T2.tail1 lab2) ->
  agree3 (T3.init1 lg1) (T3.init1 lg2) ->
  agree3 (T3.init1 rf1) (T3.init1 rf2) ->
  tdpo_get_batch_logps lg1 rf1 lab1 avg = tdpo_get_batch_logps lg2 rf2 lab2 avg.
Proof.
  intros Hl1 Hr1 Hb1 Hlab Hlg Hrf.
  pose proof (shifted_labels_agree lab1 lab2 Hlab) as Hshift.
  destruct Hlab as (Hb0 & _ & Hlab).
  destruct Hlg as (Hl0 & _ & Hl2 & Hlg).
  destruct Hrf as (Hr0 & _ & Hr2 & Hrf).
  cbn [T2.tail1 T3.init1 T2.d0 T2.d1 T2.at_ T3.d0 T3.d1 T3.d2 T3.at_] in *.
  rewrite !tdpo_get_batch_logps_closed_form.
  assert (Hshapes : shapes_ok lg1 rf1 lab1 = shapes_ok lg2 rf2 lab2).
  { unfold shapes_ok, T3.shape_init, T2.shape. congruence. }
  assert (Hruntime : runtime_ok lg1 rf1 lab1 = runtime_ok lg2 rf2 lab2).
  { unfold runtime_ok. rewrite <- Hl2, <- Hr2.
    now rewrite !(all_indices_ok_agree _ _ _ Hshift). }
  rewrite <- Hshapes, <- Hruntime.
  destruct (shapes_ok lg1 rf1 lab1) eqn:Hs; [| reflexivity].
  destruct (runtime_ok lg1 rf1 lab1) eqn:Hr; [| reflexivity].
  f_equal.
  (* dimensions of the three arguments coincide *)
  unfold shapes_ok, shape_eqb, T3.shape_init, T2.shape in Hs.
  cbn [fst snd] in Hs.
  rewrite !andb_true_iff, !Nat.eqb_eq in Hs.
  destruct Hs as [[Hs0 Hs1] [Hs2 Hs3]].
  (* every label read indexes both vocabularies *)
  unfold runtime_ok in Hr.
  destruct (bdim (T3.d2 rf1) (T3.d2 lg1)) as [w |] eqn:Hw; [| discriminate].
  apply andb_true_iff in Hr. destruct Hr as [Hokl Hokr].
  rewrite all_indices_ok_spec in Hokl, Hokr.
  assert (Hmask : forall b i, (b < T2.d0 lab1)%nat -> (i < T2.d1 lab1 - 1)%nat ->
            mask_at lab1 b i = mask_at lab2 b i).
  { intros b i Hb Hi. unfold mask_at. now rewrite Hlab. }
  assert (Hlabel : forall b i, (b < T2.d0 lab1)%nat -> (i < T2.d1 lab1 - 1)%nat ->
            label_at lab1 b i = label_at lab2 b i).
  { intros b i Hb Hi. unfold label_at.
    destruct Hshift as (_ & _ & Hat). now rewrite Hat. }
  assert (Htok : forall b i, (b < T2.d0 lab1)%nat -> (i < T2.d1 lab1 - 1)%nat ->
            token_logp_at lg1 lab1 b i = token_logp_at lg2 lab2 b i).
  { intros b i Hb Hi. unfold token_logp_at.
    rewrite <- Hmask, <- Hlabel by assumption.
    rewrite (log_prob_agree lg1 lg2 b i Hl2); [reflexivity | |].
    - intros v Hv. apply Hlg; [lia | lia | exact Hv].
    - apply index_ok_to_nat, Hokl; assumption. }
  assert (Href : forall b i, (b < T2.d0 lab1)%nat -> (i < T2.d1 lab1 - 1)%nat ->
            reference_token_logp_at rf1 lab1 b i =
            reference_token_logp_at rf2 lab2 b i).
  { intros b i Hb Hi. unfold reference_token_logp_at.
    rewrite <- Hmask, <- Hlabel by assumption.
    rewrite (prob_agree rf1 rf2 b i Hr2); [reflexivity | |].
    - intros v Hv. apply Hrf; [lia | lia | exact Hv].
    - apply index_ok_to_nat, Hokr; assumption. }
  assert (Hkl : forall b i, (b < T2.d0 lab1)%nat -> (i < T2.d1 lab1 - 1)%nat ->
            kl_at lg1 rf1 b i = kl_at lg2 rf2 b i).
  { intros b i Hb Hi. apply kl_at_agree; try assumption.
    - intros v Hv. apply Hlg; [lia | lia | exact Hv].
    - intros v Hv. apply Hrf; [lia | lia | exact Hv]. }
  assert (Hm : masked_sums lab1 (margin_at lg1 rf1 lab1) =
               masked_sums lab2 (margin_at lg2 rf2 lab2)).
  { apply masked_sums_agree; try assumption. intros b i Hb Hi.
    split; [now apply Hmask |]. unfold margin_at. now rewrite Htok, Href. }
  assert (Hk : masked_sums lab1 (kl_at lg1 rf1) =
               masked_sums lab2 (kl_at lg2 rf2)).
  { apply masked_sums_agree; try assumption. intros b i Hb Hi.
    split; [now apply Hmask | now apply Hkl]. }
  assert (Ht : masked_sums lab1 (token_logp_at lg1 lab1) =
               masked_sums lab2 (token_logp_at lg2 lab2)).
  { apply masked_sums_agree; try assumption. intros b i Hb Hi.
    split; [now apply Hmask | now apply Htok]. }
  assert (Hc : mask_counts lab1 = mask_counts lab2)
    by (apply mask_counts_agree; assumption).
  unfold closed_form. destruct avg; now rewrite Hm, Hk, Ht, ?Hc.
Qed.

(** C3. Two inputs of one sequence length that agree on labels[:, 1:],
    logits[:, :-1, :] and reference_logits[:, :-1, :] give the same result
    (the same three vectors, or the same error). *)
Theorem aligner_shift_consistency
  (lg1 rf1 : T3.t dual) (lab1 : T2.t Z)
  (lg2 rf2 : T3.t dual) (lab2 : T2.t Z) (avg : bool) :
  T3.d1 lg1 = T3.d1 lg2 -> T3.d1 rf1 = T3.d1 rf2 -> T2.d1 lab1 = T2.d1 lab2 ->
  agree2 (T2.tail1 lab1) (T2.tail1 lab2) ->
  agree3 (T3.init1 lg1) (T3.init1 lg2) ->
  agree3 (T3.init1 rf1) (T3.init1 rf2) ->
  tdpo_get_batch_logps lg1 rf1 lab1 avg = tdpo_get_batch_logps lg2 rf2 lab2 avg.
Proof. apply tdpo_get_batch_logps_agree. Qed.

Lemma agree3_refl {A : Type} (x : T3.t A) : agree3 x x.
Proof. repeat split. Qed.

Lemma agree2_refl {A : Type} (x : T2.t A) : agree2 x x.
Proof. repeat split. Qed.

Lemma aligner_shift_consistency_witness :
  tdpo_get_batch_logps zero_logits_1_2_1 zero_logits_1_2_1 labels_0_0 false =
  tdpo_get_batch_logps logits_1_2_1_last_changed zero_logits_1_2_1
    labels_9_0 false.
Proof.
  apply (aligner_shift_consistency
           zero_logits_1_2_1 zero_logits_1_2_1 labels_0_0
           logits_1_2_1_last_changed zero_logits_1_2_1 labels_9_0 false);
    try reflexivity.
  - split; [reflexivity | split; [reflexivity |]].
    intros b i Hb Hi. reflexivity.
  - split; [reflexivity | split; [reflexivity | split; [reflexivity |]]].
    intros b i v Hb Hi Hv. simpl in Hi.
    destruct i; [reflexivity | lia].
  - apply agree3_refl.
Defined.

(** The logits of the last position are never read. *)
Lemma last_logits_position_ignored
  (lg lg' rf : T3.t dual) (lab : T2.t Z) (avg : bool) :
  T3.d0 lg = T3.d0 lg' -> T3.d1 lg = T3.d1 lg' -> T3.d2 lg = T3.d2 lg' ->
  (forall b i v, (i < T3.d1 lg - 1)%nat -> T3.at_ lg b i v = T3.at_ lg' b i v) ->
  tdpo_get_batch_logps lg rf lab avg = tdpo_get_batch_logps lg' rf lab avg.
Proof.
  intros H0 H1 H2 Hat.
  apply tdpo_get_batch_logps_agree; auto using agree2_refl, agree3_refl.
  split; [exact H0 | split; [simpl; congruence | split; [exact H2 |]]].
  intros b i v _ Hi _. now apply Hat.
Qed.

(** The label of the first position is never read. *)
Lemma first_label_position_ignored
  (lg rf : T3.t dual) (lab lab' : T2.t Z) (avg : bool) :
  T2.d0 lab = T2.d0 lab' -> T2.d1 lab = T2.d1 lab' ->
  (forall b i, T2.at_ lab b (S i) = T2.at_ lab' b (S i)) ->
  tdpo_get_batch_logps lg rf lab avg = tdpo_get_batch_logps lg rf lab' avg.
Proof.
  intros H0 H1 Hat.
  apply tdpo_get_batch_logps_agree; auto using agree3_refl.
  split; [exact H0 | split; [simpl; congruence |]].
  intros b i _ _. apply Hat.
Qed.

(** ** The orchestrator *)

(** C9. [forward] returns the same result whatever [average_log_prob] it
    is given: the aligner is always called with [average_log_prob=False]. *)
Theorem forward_ignores_average_log_prob
  (batch : Type) (chosen_input_ids : batch -> T2.t Z)
  (concatenated_inputs : tdpo_model -> batch -> concatenated_batch)
  (self : tdpo_model) (model : language_model) (batch_ : batch) :
  forward batch chosen_input_ids concatenated_inputs self model batch_ true =
  forward batch chosen_input_ids concatenated_inputs self model batch_ false.
Proof. reflexivity. Qed.






(** ** The metrics mapping *)

Lemma append_inj_l (s a b : String.string) :
  String.append s a = String.append s b -> a = b.
Proof.
  induction s as [| c s IH]; simpl; intros H; [exact H |].
  injection H as H. auto.
Qed.

Ltac key_neq :=
  apply String.eqb_neq; unfold key, loss_key; cbn [String.append];
  let H := fresh "H" in
  intros H;
  repeat first [discriminate H | injection H as H];
  apply append_inj_l in H; discriminate H.

Ltac decide_keys :=
  repeat match goal with
         | |- context [String.eqb ?a ?a] => rewrite (String.eqb_refl a)
         | |- context [String.eqb ?a ?b] =>
             replace (String.eqb a b) with false by (symmetry; key_neq)
         end.

Lemma dict_get_detach_float_metrics (d : dict) (k : String.string) (v : vec) :
  dict_get d k = Some (Vector v) ->
  dict_get (detach_float_metrics d) k = Some (Vector (vdetach v)).
Proof.
  induction d as [| [k' v'] d IH]; simpl; [discriminate |].
  destruct (String.eqb k' k); [| exact IH].
  intros H. injection H as ->. reflexivity.
Qed.

Section Metrics.

Variable batch : Type.
Variable chosen_input_ids : batch -> T2.t Z.
Variable concatenated_inputs : tdpo_model -> batch -> concatenated_batch.

(** The accuracies that [get_batch_metrics] reports are those of the
    rewards that [self.loss] returned, detached like every metric. *)
Lemma get_batch_metrics_accuracies (self : tdpo_model) (batch_ : batch)
  (mode : option String.string) (losses : quot) (metrics : dict) :
  get_batch_metrics batch chosen_input_ids concatenated_inputs self batch_ mode
    = inr (losses, metrics) ->
  let mode_ := match mode with None => config_mode self | Some m => m end in
  exists chosen_rewards rejected_rewards accuracies,
    reward_accuracies chosen_rewards rejected_rewards = inr accuracies /\
    dict_get metrics (key "rewards" mode_ "chosen") =
      Some (Vector (vdetach chosen_rewards)) /\
    dict_get metrics (key "rewards" mode_ "rejected") =
      Some (Vector (vdetach rejected_rewards)) /\
    dict_get metrics (key "rewards" mode_ "accuracies") =
      Some (Vector (vdetach accuracies)).
Proof.
  intros H. cbv zeta. unfold get_batch_metrics in H.
  remember (match mode with None => config_mode self | Some m => m end)
    as mode_ eqn:Hmode. clear Hmode.
  destruct (forward batch chosen_input_ids concatenated_inputs self
              (policy self) batch_ false)
    as [e | [[[[[cm rm] ck] rk] cl] rl]]; [discriminate |].
  cbn [bind] in H.
  destruct (loss self cm rm ck rk) as [e | [[ls cr] rr]]; [discriminate |].
  cbn [bind] in H.
  destruct (reward_accuracies cr rr) as [e | acc] eqn:Hacc; [discriminate |].
  cbn [bind] in H.
  destruct (vsub cr rr) as [e | margins]; [discriminate |].
  cbn [bind] in H.
  destruct (vsub ck rk) as [e | klm]; [discriminate |].
  cbn [bind] in H. unfold ret in H. injection H as _ <-.
  exists cr, rr, acc. split; [exact Hacc |].
  repeat split; apply dict_get_detach_float_metrics;
    repeat (progress (cbn [dict_set dict_get]; decide_keys)); reflexivity.
Qed.

End Metrics.

(** * The code on floats *)

Lemma pow2_le_exp (n : nat) : 2 ^ n <= exp (INR n).
Proof.
  induction n as [| n IH]; [simpl; rewrite exp_0; lra |].
  rewrite S_INR, exp_plus. change (2 ^ S n) with (2 * 2 ^ n).
  pose proof (exp_ineq1 1 ltac:(lra)) as H1.
  pose proof (exp_pos (INR n)) as Hp.
  assert (0 < 2 ^ n) by (apply pow_lt; lra).
  nra.
Qed.

Lemma tiny_pos : 0 < Float.tiny.
Proof. unfold Float.tiny. apply Rinv_0_lt_compat, pow_lt. lra. Qed.

Lemma tiny_le_half : Float.tiny <= / 2.
Proof.
  unfold Float.tiny. apply Rinv_le_contravar; [lra |].
  replace 2 with (2 ^ 1) at 1 by (simpl; lra).
  apply Rle_pow; [lra | lia].
Qed.

Lemma huge_gt_4096 : 4096 < Float.huge.
Proof.
  unfold Float.huge. replace 4096 with (2 ^ 12) by (simpl; lra).
  apply Rlt_pow; [lra | lia].
Qed.

Lemma exp_underflow (x : R) : 2000 <= x -> exp (- x) < Float.tiny.
Proof.
  intros Hx. unfold Float.tiny.
  apply Rle_lt_trans with (exp (Ropp 2000)).
  { destruct (Req_dec x 2000) as [-> | Hne]; [apply Rle_refl |].
    apply Rlt_le, exp_increasing. lra. }
  rewrite exp_Ropp. apply Rinv_lt_contravar.
  - apply Rmult_lt_0_compat; [apply pow_lt; lra | apply exp_pos].
  - apply Rlt_le_trans with (2 ^ 2000).
    + apply Rlt_pow; [lra | lia].
    + replace 2000 with (INR 2000) by (rewrite INR_IZR_INZ; reflexivity).
      apply pow2_le_exp.
Qed.

Lemma round_exact (x : R) :
  Rabs x < 4096 -> x = 0 \/ / 2 <= Rabs x -> Float.round x = Float.Finite x.
Proof.
  intros Hlt Hge. unfold Float.round.
  pose proof huge_gt_4096. pose proof tiny_le_half. pose proof tiny_pos.
  pose proof (Rle_abs x). pose proof (Rle_abs (- x)) as Hn.
  rewrite Rabs_Ropp in Hn.
  destruct (Rle_dec Float.huge x); [lra |].
  destruct (Rle_dec x (- Float.huge)); [lra |].
  destruct (Rlt_dec (Rabs x) Float.tiny) as [Hs | _]; [| reflexivity].
  destruct Hge as [-> | Hge]; [reflexivity | lra].
Qed.

Lemma round_underflow (x : R) :
  Rabs x < Float.tiny -> Float.round x = Float.Finite 0.
Proof.
  intros Hs. unfold Float.round.
  pose proof huge_gt_4096. pose proof tiny_le_half.
  pose proof (Rle_abs x). pose proof (Rle_abs (- x)) as Hn.
  rewrite Rabs_Ropp in Hn.
  destruct (Rle_dec Float.huge x); [lra |].
  destruct (Rle_dec x (- Float.huge)); [lra |].
  destruct (Rlt_dec (Rabs x) Float.tiny); [reflexivity | contradiction].
Qed.

Lemma round_int (x : R) :
  x = 0 \/ 1 <= x < 4096 -> Float.round x = Float.Finite x.
Proof.
  intros [-> | Hx]; apply round_exact.
  - rewrite Rabs_R0. lra.
  - now left.
  - rewrite Rabs_right; lra.
  - right. rewrite Rabs_right; lra.
Qed.

(** The log-sigmoid of a large argument is zero. *)
Lemma logsigmoid_saturates (x : R) :
  2000 <= x < 4096 -> Float.logsigmoid (Float.Finite x) = Float.Finite 0.
Proof.
  intros Hx. unfold Float.logsigmoid.
  cbn [Float.abs Float.neg Float.exp Float.min].
  rewrite (Rabs_right x) by lra.
  rewrite round_underflow
    by (rewrite Rabs_right by (left; apply exp_pos);
        apply exp_underflow; lra).
  rewrite Rmin_right by lra.
  unfold Float.log1p.
  destruct (Rlt_dec 0 (- 1)); [lra |].
  destruct (Req_dec_T 0 (- 1)); [lra |].
  rewrite Rplus_0_r, ln_1, round_int by (left; reflexivity).
  unfold Float.sub. cbn [Float.neg Float.add].
  rewrite Ropp_0, Rplus_0_r. apply round_int. now left.
Qed.

Lemma float_loss1_entry (c : R) :
  2000 <= c < 4096 ->
  exists chosen_rewards rejected_rewards,
    Float.loss1 (Config.Build_loss 1 1)
      [Float.Finite c] [Float.Finite 0] [Float.Finite 0] [Float.Finite 0] =
    inr ([Float.Finite 0], chosen_rewards, rejected_rewards).
Proof.
  intros Hc. unfold Float.loss1.
  cbn [broadcast2 length Nat.eqb zip_with bind ret List.map Config.beta].
  eexists _, _. f_equal. f_equal. f_equal. f_equal.
  unfold Float.sub. cbn [Float.neg Float.add].
  rewrite Ropp_0, !Rplus_0_r.
  rewrite (round_int c) by (right; lra).
  rewrite (round_int 0) by (left; reflexivity).
  cbn [Float.neg Float.add]. rewrite Ropp_0, Rplus_0_r.
  rewrite (round_int c) by (right; lra).
  cbn [Float.mul]. rewrite Rmult_1_l, (round_int c) by (right; lra).
  rewrite logsigmoid_saturates by exact Hc.
  cbn [Float.neg]. now rewrite Ropp_0.
Qed.

(** C7, as stated, fails on floats, where the loss saturates: the chosen
    margins 2000 and 3000, everything else zero and beta = 1, both give the
    loss 0, so the larger margin does not give a strictly smaller loss. *)
Lemma loss1_saturates_on_floats :
  exists losses cr rr losses' cr' rr',
    Float.loss1 (Config.Build_loss 1 1)
      [Float.Finite 2000] [Float.Finite 0] [Float.Finite 0] [Float.Finite 0] =
      inr (losses, cr, rr) /\
    Float.loss1 (Config.Build_loss 1 1)
      [Float.Finite 3000] [Float.Finite 0] [Float.Finite 0] [Float.Finite 0] =
      inr (losses', cr', rr') /\
    2000 < 3000 /\
    losses = [Float.Finite 0] /\ losses' = [Float.Finite 0].
Proof.
  destruct (float_loss1_entry 2000 ltac:(lra)) as (cr & rr & H).
  destruct (float_loss1_entry 3000 ltac:(lra)) as (cr' & rr' & H').
  exists [Float.Finite 0], cr, rr, [Float.Finite 0], cr', rr'.
  repeat split; [exact H | exact H' | lra].
Qed.

(** ** The aligner at a masked position with an underflowing reference *)

Lemma ln_2_lt_1 : ln 2 < 1.
Proof.
  rewrite <- (ln_exp 1). apply ln_increasing; [lra |].
  pose proof (exp_ineq1 1 ltac:(lra)). lra.
Qed.

Lemma float_max_zero_row :
  Float.max (Float.max Float.NInf (Float.Finite 0)) (Float.Finite 0) =
  Float.Finite 0.
Proof. cbn [Float.max]. now rewrite Rmax_left by lra. Qed.

Lemma float_max_confident_row :
  Float.max (Float.max Float.NInf (Float.Finite (- 2000))) (Float.Finite 0) =
  Float.Finite 0.
Proof. cbn [Float.max]. now rewrite Rmax_right by lra. Qed.

Lemma float_sub_zero (x : R) :
  x = 0 \/ / 2 <= Rabs x < 4096 ->
  Float.sub (Float.Finite x) (Float.Finite 0) = Float.Finite x.
Proof.
  intros Hx. unfold Float.sub. cbn [Float.neg Float.add].
  rewrite Ropp_0, Rplus_0_r. apply round_exact.
  - destruct Hx as [-> | Hx]; [rewrite Rabs_R0 |]; lra.
  - destruct Hx as [-> | Hx]; [now left | right; lra].
Qed.

Lemma float_exp_zero : Float.exp (Float.Finite 0) = Float.Finite 1.
Proof. cbn [Float.exp]. rewrite exp_0. apply round_int. right. lra. Qed.

Lemma float_exp_underflows :
  Float.exp (Float.Finite (- 2000)) = Float.Finite 0.
Proof.
  cbn [Float.exp]. apply round_underflow.
  rewrite Rabs_right by (left; apply exp_pos).
  change (IZR (- 2000)) with (Ropp 2000). apply exp_underflow. lra.
Qed.

Lemma float_add_small (x y : R) :
  x + y = 0 \/ 1 <= x + y < 4096 ->
  Float.add (Float.Finite x) (Float.Finite y) = Float.Finite (x + y).
Proof. intros H. cbn [Float.add]. now apply round_int. Qed.

Lemma float_log_zero : Float.log (Float.Finite 0) = Float.NInf.
Proof.
  unfold Float.log. destruct (Rlt_dec 0 0); [lra |].
  destruct (Req_dec_T 0 0); [reflexivity | contradiction].
Qed.

Lemma float_log_one : Float.log (Float.Finite 1) = Float.Finite 0.
Proof.
  unfold Float.log. destruct (Rlt_dec 1 0); [lra |].
  destruct (Req_dec_T 1 0); [lra |].
  rewrite ln_1. apply round_int. now left.
Qed.

Lemma float_log_two : Float.log (Float.Finite 2) = Float.Finite (ln 2).
Proof.
  unfold Float.log. destruct (Rlt_dec 2 0); [lra |].
  destruct (Req_dec_T 2 0); [lra |].
  pose proof ln_lt_2. pose proof ln_2_lt_1.
  apply round_exact; rewrite Rabs_right by lra; [lra | right; lra].
Qed.

Lemma float_div_one (x : R) :
  x = 0 \/ 1 <= x < 4096 ->
  Float.div (Float.Finite x) (Float.Finite 1) = Float.Finite x.
Proof.
  intros Hx. unfold Float.div. destruct (Req_dec_T 1 0); [lra |].
  replace (x / 1) with x by field. now apply round_int.
Qed.

Lemma float_minus_ln_2 :
  Float.sub (Float.Finite 0) (Float.Finite (ln 2)) = Float.Finite (- ln 2).
Proof.
  unfold Float.sub. cbn [Float.neg Float.add]. rewrite Rplus_0_l.
  pose proof ln_lt_2. pose proof ln_2_lt_1.
  apply round_exact; rewrite Rabs_left by lra; [lra | right; lra].
Qed.

Lemma float_zero_times_inf :
  Float.mul (Float.Finite 0) Float.NInf = Float.NaN /\
  Float.mul Float.NInf (Float.Finite 0) = Float.NaN.
Proof.
  cbn [Float.mul]. unfold Float.scale_inf.
  destruct (Req_dec_T 0 0); [split; reflexivity | contradiction].
Qed.

Lemma float_times_zero (x : R) :
  Float.mul (Float.Finite x) (Float.Finite 0) = Float.Finite 0.
Proof.
  cbn [Float.mul]. rewrite Rmult_0_r. apply round_int. now left.
Qed.

(** C4, failing input.  Policy logits all zero, reference logits
    [[[-2000, 0], [0, 0]]], labels [[-100, -100]]: the reference probability
    of token 0 underflows to zero, its logarithm is minus infinity, and the
    multiplication by the mask, 0 times an infinity, is NaN.  The margin
    and the divergence of the one sequence, all of whose positions are
    masked, are NaN under the sum; its log-probability is zero. *)
Lemma all_masked_sequence_nan_on_floats :
  Float.tdpo_get_batch_logps float_zero_logits_1_2_2
    confident_reference_logits labels_all_masked false =
  inr ([Float.NaN], [Float.NaN], [Float.Finite 0]).
Proof.
  unfold Float.tdpo_get_batch_logps.
  cbn [assert_ shape_eqb T3.shape_init T2.shape float_zero_logits_1_2_2
       confident_reference_logits labels_all_masked T3.d0 T3.d1 T3.d2 T2.d0
       T2.d1 fst snd Nat.eqb andb bind ret T2.tail1 T3.init1 T2.map T3.map
       Nat.sub map2_3 map2_2 bdim bidx Float.log_softmax Float.softmax
       Float.sum_last Float.gather_last Nat.leb all_indices_ok forallb seq
       index_ok T2.at_ T3.at_ Z.eqb SENTINEL Pos.eqb negb Z.leb Z.ltb Z.compare
       Z.of_nat Pos.of_succ_nat Pos.succ Pos.compare Pos.compare_cont Z.to_nat
       Float.row_sums List.map Float.sum Float.max_over raise].
  unfold Float.mul_mask, Float.of_bool.
  rewrite !float_max_zero_row, !float_max_confident_row.
  rewrite !(float_sub_zero 0) by (now left).
  rewrite !(float_sub_zero (- 2000))
    by (right; rewrite Rabs_left by lra; lra).
  rewrite !float_exp_zero, !float_exp_underflows.
  rewrite !(float_add_small 0 1) by (right; lra).
  rewrite !(float_add_small 0 0) by (left; lra).
  replace (0 + 1) with 1 by lra. replace (0 + 0) with 0 by lra.
  rewrite !(float_add_small 1 1) by (right; lra).
  rewrite !(float_add_small 0 1) by (right; lra).
  replace (1 + 1) with 2 by lra. replace (0 + 1) with 1 by lra.
  rewrite !(float_div_one 0) by (now left).
  rewrite ?(float_div_one 1) by (right; lra).
  rewrite !float_log_zero, ?float_log_one, !float_log_two.
  rewrite !float_minus_ln_2.
  rewrite !float_times_zero.
  destruct float_zero_times_inf as [H0inf Hinf0]. rewrite Hinf0.
  change (Float.sub Float.NInf (Float.Finite (- ln 2))) with Float.NInf.
  rewrite H0inf.
  cbn [Float.sub Float.neg Float.add Float.mul].
  rewrite (round_int (0 + 0)) by (left; lra).
  replace (0 + 0) with 0 by lra. reflexivity.
Qed.

Lemma float_half : Float.div (Float.Finite 1) (Float.Finite 2) = Float.Finite (/ 2).
Proof.
  unfold Float.div. destruct (Req_dec_T 2 0); [lra |].
  replace (1 / 2) with (/ 2) by field.
  apply round_exact; rewrite Rabs_right by lra; [lra | right; lra].
Qed.

Lemma float_log_half : Float.log (Float.Finite (/ 2)) = Float.Finite (- ln 2).
Proof.
  unfold Float.log. destruct (Rlt_dec (/ 2) 0); [lra |].
  destruct (Req_dec_T (/ 2) 0); [lra |].
  rewrite ln_Rinv by lra.
  pose proof ln_lt_2. pose proof ln_2_lt_1.
  apply round_exact; rewrite Rabs_left by lra; [lra | right; lra].
Qed.

Lemma float_sub_self (x : R) :
  Float.sub (Float.Finite x) (Float.Finite x) = Float.Finite 0.
Proof.
  unfold Float.sub. cbn [Float.neg Float.add].
  replace (x + - x) with 0 by lra. apply round_int. now left.
Qed.

Lemma float_add_zero :
  Float.add (Float.Finite 0) (Float.Finite 0) = Float.Finite 0.
Proof.
  rewrite float_add_small by (left; lra). f_equal. lra.
Qed.

(** The same call with the all-zero logits as reference, where nothing
    underflows: every sum is zero. *)
Lemma all_masked_sequence_zero_on_floats :
  Float.tdpo_get_batch_logps float_zero_logits_1_2_2
    float_zero_logits_1_2_2 labels_all_masked false =
  inr ([Float.Finite 0], [Float.Finite 0], [Float.Finite 0]).
Proof.
  unfold Float.tdpo_get_batch_logps.
  cbn [assert_ shape_eqb T3.shape_init T2.shape float_zero_logits_1_2_2
       labels_all_masked T3.d0 T3.d1 T3.d2 T2.d0
       T2.d1 fst snd Nat.eqb andb bind ret T2.tail1 T3.init1 T2.map T3.map
       Nat.sub map2_3 map2_2 bdim bidx Float.log_softmax Float.softmax
       Float.sum_last Float.gather_last Nat.leb all_indices_ok forallb seq
       index_ok T2.at_ T3.at_ Z.eqb SENTINEL Pos.eqb negb Z.leb Z.ltb Z.compare
       Z.of_nat Pos.of_succ_nat Pos.succ Pos.compare Pos.compare_cont Z.to_nat
       Float.row_sums List.map Float.sum Float.max_over raise].
  unfold Float.mul_mask, Float.of_bool.
  rewrite !float_max_zero_row.
  rewrite !(float_sub_zero 0) by (now left).
  rewrite !float_exp_zero.
  rewrite !(float_add_small 0 1) by (right; lra).
  replace (0 + 1) with 1 by lra.
  rewrite !(float_add_small 1 1) by (right; lra).
  replace (1 + 1) with 2 by lra.
  rewrite !float_half, !float_log_half, !float_log_two, !float_minus_ln_2.
  rewrite !float_sub_self, !float_times_zero, !float_add_zero.
  rewrite !float_times_zero, ?float_add_zero, ?float_sub_self.
  rewrite ?float_times_zero, ?float_add_zero.
  reflexivity.
Qed.

(** * Further properties *)

(** ** The loss variants *)

Lemma neg_logsigmoid_0 : - logsigmoid 0 = ln 2.
Proof.
  rewrite logsigmoid_softplus, Ropp_involutive, Ropp_0, exp_0.
  replace (1 + 1) with 2 by lra. reflexivity.
Qed.

Lemma neg_logsigmoid_pos (x : R) : 0 < - logsigmoid x.
Proof.
  rewrite logsigmoid_softplus, Ropp_involutive, <- ln_1.
  apply ln_increasing; [lra |]. pose proof (exp_pos (- x)). lra.
Qed.



Lemma loss_vector_positive (c : R) (logits : vec) :
  Forall (fun x => 0 < primal x) (vneg (vlogsigmoid (vscale c logits))).
Proof.
  unfold vneg, vlogsigmoid, vscale. rewrite !map_map.
  apply Forall_forall. intros x Hx. apply in_map_iff in Hx.
  destruct Hx as (y & <- & _). simpl. apply neg_logsigmoid_pos.
Qed.

Ltac invert_binds H :=
  repeat match type of H with
         | bind ?m _ = inr _ =>
             let e := fresh "e" in
             destruct m as [e |] eqn:?; [discriminate H | cbn [bind] in H]
         end.

(** X2. In exact arithmetic, every entry of the loss vector that either
    variant returns is strictly positive, for every configuration and every
    input on which the call returns. *)
Theorem losses_positive (cfg : Config.loss) (cm rm ck rk : vec)
  (losses chosen_rewards rejected_rewards : vec) :
  loss1 cfg cm rm ck rk = inr (losses, chosen_rewards, rejected_rewards) \/
  loss2 cfg cm rm ck rk = inr (losses, chosen_rewards, rejected_rewards) ->
  Forall (fun x => 0 < primal x) losses.
Proof.
  intros [H | H]; [unfold loss1 in H | unfold loss2 in H];
    invert_binds H; cbv zeta in H; invert_binds H;
    unfold ret in H; injection H as <- _ _; apply loss_vector_positive.
Qed.

Lemma losses_positive_witness :
  Forall (fun x => 0 < primal x)
    (vneg (vlogsigmoid (vscale 1
       [sub (sub (const 1) (const 0)) (sub (const 0) (const 0))]))).
Proof.
  eapply (losses_positive (Config.Build_loss 1 1)
            [const 1] [const 0] [const 0] [const 0]).
  left. reflexivity.
Defined.

(** X3. When chosen and rejected inputs have the same forward values at an
    index, both variants return the loss ln 2 there, whatever alpha and
    beta are. *)
Theorem loss_at_tie (cfg : Config.loss) (cm rm ck rk : vec) (N : nat) :
  length cm = N -> length rm = N -> length ck = N -> length rk = N ->
  exists l1 c1 r1 l2 c2 r2,
    loss1 cfg cm rm ck rk = inr (l1, c1, r1) /\
    loss2 cfg cm rm ck rk = inr (l2, c2, r2) /\
    forall i, (i < N)%nat ->
      primal (nth i cm zero) = primal (nth i rm zero) ->
      primal (nth i ck zero) = primal (nth i rk zero) ->
      primal (nth i l1 zero) = ln 2 /\ primal (nth i l2 zero) = ln 2.
Proof.
  intros Hcm Hrm Hck Hrk.
  rewrite loss1_paired, loss2_paired by congruence.
  eexists _, _, _, _, _, _. split; [reflexivity |]. split; [reflexivity |].
  intros i Hi Hm Hk.
  rewrite (loss_entry cfg N i Hi) by solve_length.
  rewrite (loss_entry cfg N i Hi) by (unfold vscale, vdetach; solve_length).
  rewrite (loss1_logit_entry cm rm ck rk N i) by assumption.
  rewrite (loss2_logit_entry cfg cm rm ck rk N i) by assumption.
  simpl. rewrite Hm, Hk. rewrite <- neg_logsigmoid_0.
  split; f_equal; f_equal; ring.
Qed.

Lemma loss_at_tie_witness :
  exists l1 c1 r1 l2 c2 r2,
    loss1 (Config.Build_loss 3 2) [const 1] [const 1] [const 4] [const 4] =
      inr (l1, c1, r1) /\
    loss2 (Config.Build_loss 3 2) [const 1] [const 1] [const 4] [const 4] =
      inr (l2, c2, r2) /\
    forall i, (i < 1)%nat ->
      primal (nth i [const 1] zero) = primal (nth i [const 1] zero) ->
      primal (nth i [const 4] zero) = primal (nth i [const 4] zero) ->
      primal (nth i l1 zero) = ln 2 /\ primal (nth i l2 zero) = ln 2.
Proof.
  apply (loss_at_tie (Config.Build_loss 3 2)
           [const 1] [const 1] [const 4] [const 4] 1); reflexivity.
Defined.

Lemma broadcast2_mismatch {A B C : Type} (f : A -> B -> C)
  (xs : list A) (ys : list B) :
  length xs <> length ys -> length xs <> 1%nat -> length ys <> 1%nat ->
  broadcast2 f xs ys = inl RuntimeError.
Proof.
  intros Hne Hx Hy. unfold broadcast2.
  destruct (Nat.eqb_spec (length xs) (length ys)); [contradiction |].
  destruct xs as [| x [| x' xs]], ys as [| y [| y' ys]]; simpl in *;
    try reflexivity; congruence.
Qed.

Lemma broadcast2_singleton_l {A B C : Type} (f : A -> B -> C)
  (x : A) (ys : list B) :
  broadcast2 f [x] ys = inr (map (f x) ys).
Proof. destruct ys as [| y [| y' ys]]; reflexivity. Qed.

Lemma broadcast2_singleton_r {A B C : Type} (f : A -> B -> C)
  (xs : list A) (y : B) :
  broadcast2 f xs [y] = inr (map (fun x => f x y) xs).
Proof. destruct xs as [| x [| x' xs]]; reflexivity. Qed.

(** X4. When the chosen vectors have N entries and the rejected vectors M,
    with N and M different and neither equal to 1, both variants raise a
    runtime error: nothing broadcasts. *)
Theorem loss_rejects_unequal_halves
  (cfg : Config.loss) (cm rm ck rk : vec) (N M : nat) :
  length cm = N -> length ck = N -> length rm = M -> length rk = M ->
  N <> M -> N <> 1%nat -> M <> 1%nat ->
  loss1 cfg cm rm ck rk = inl RuntimeError /\
  loss2 cfg cm rm ck rk = inl RuntimeError.
Proof.
  intros Hcm Hck Hrm Hrk Hne HN HM.
  unfold loss1, loss2, vadd, vsub.
  rewrite !(broadcast2_same_length add) by congruence.
  unfold ret; cbn [bind].
  rewrite (broadcast2_mismatch sub cm rm) by congruence.
  split; reflexivity.
Qed.

Lemma loss_rejects_unequal_halves_witness :
  loss1 (Config.Build_loss 1 1) [zero; zero] [zero; zero; zero]
        [zero; zero] [zero; zero; zero] = inl RuntimeError /\
  loss2 (Config.Build_loss 1 1) [zero; zero] [zero; zero; zero]
        [zero; zero] [zero; zero; zero] = inl RuntimeError.
Proof.
  apply (loss_rejects_unequal_halves (Config.Build_loss 1 1)
           [zero; zero] [zero; zero; zero] [zero; zero] [zero; zero; zero] 2 3);
    try reflexivity; lia.
Defined.

(** X5. A single chosen example broadcasts against M rejected ones without
    any error: both variants return M losses, one chosen reward and M
    rejected rewards, the loss at index i pairing the one chosen example
    with rejected example i. *)
Theorem loss_broadcasts_single_chosen
  (cfg : Config.loss) (c k : dual) (rm rk : vec) (M : nat) :
  length rm = M -> length rk = M ->
  exists l1 c1 r1 l2 c2 r2,
    loss1 cfg [c] rm [k] rk = inr (l1, c1, r1) /\
    loss2 cfg [c] rm [k] rk = inr (l2, c2, r2) /\
    length l1 = M /\ length c1 = 1%nat /\ length r1 = M /\
    length l2 = M /\ length c2 = 1%nat /\ length r2 = M /\
    forall i, (i < M)%nat ->
      primal (nth i l1 zero) =
        - logsigmoid (Config.beta cfg *
            logit1 (primal c) (primal (nth i rm zero))
                   (primal k) (primal (nth i rk zero))) /\
      primal (nth i l2 zero) =
        - logsigmoid (Config.beta cfg *
            logit2 (Config.alpha cfg) (primal c) (primal (nth i rm zero))
                   (primal k) (primal (nth i rk zero))).
Proof.
  intros Hrm Hrk.
  unfold loss1, loss2, vadd, vsub, vdetach. cbn [map].
  rewrite !broadcast2_singleton_l, !broadcast2_singleton_r.
  unfold ret; cbn [bind].
  rewrite !(broadcast2_same_length add) by congruence.
  unfold ret; cbn [bind].
  rewrite !(broadcast2_same_length sub)
    by (unfold vscale; rewrite ?length_map; congruence).
  unfold ret; cbn [bind].
  eexists _, _, _, _, _, _. split; [reflexivity |]. split; [reflexivity |].
  unfold vneg, vlogsigmoid, vscale.
  do 6 (split; [first [solve_length | rewrite !length_map; reflexivity] |]).
  intros i Hi.
  rewrite !(nth_map_lt _ _ _ zero) by solve_length.
  rewrite !(zip_with_nth _ _ _ _ zero zero) by solve_length.
  rewrite !(nth_map_lt _ _ _ zero) by solve_length.
  unfold logit1, logit2. simpl. split; reflexivity.
Qed.

Lemma loss_broadcasts_single_chosen_witness :
  exists l1 c1 r1 l2 c2 r2,
    loss1 (Config.Build_loss 1 1) [zero] [zero; zero] [zero] [zero; zero] =
      inr (l1, c1, r1) /\
    loss2 (Config.Build_loss 1 1) [zero] [zero; zero] [zero] [zero; zero] =
      inr (l2, c2, r2) /\
    length l1 = 2%nat /\ length c1 = 1%nat /\ length r1 = 2%nat /\
    length l2 = 2%nat /\ length c2 = 1%nat /\ length r2 = 2%nat /\
    forall i, (i < 2)%nat ->
      primal (nth i l1 zero) =
        - logsigmoid (1 * logit1 (primal zero) (primal (nth i [zero; zero] zero))
                                 (primal zero) (primal (nth i [zero; zero] zero))) /\
      primal (nth i l2 zero) =
        - logsigmoid (1 * logit2 1 (primal zero) (primal (nth i [zero; zero] zero))
                                 (primal zero) (primal (nth i [zero; zero] zero))).
Proof.
  apply (loss_broadcasts_single_chosen (Config.Build_loss 1 1)
           zero zero [zero; zero] [zero; zero] 2); reflexivity.
Defined.

Lemma zip_with_length_eq {A B C A' B' C' : Type}
  (f : A -> B -> C) (g : A' -> B' -> C')
  (xs : list A) (ys : list B) (xs' : list A') (ys' : list B') :
  length xs = length xs' -> length ys = length ys' ->
  length (zip_with f xs ys) = length (zip_with g xs' ys').
Proof.
  revert ys xs' ys'; induction xs as [| x xs IH];
    intros [| y ys] [| x' xs'] [| y' ys'] Hx Hy; simpl in *;
    try discriminate; try reflexivity.
  f_equal. apply IH; congruence.
Qed.

Lemma broadcast2_same_lengths (f g : dual -> dual -> dual) (xs xs' ys ys' : vec) :
  length xs = length xs' -> length ys = length ys' ->
  same_outcome (fun a a' : vec => length a = length a')
    (broadcast2 f xs ys) (broadcast2 g xs' ys').
Proof.
  intros Hx Hy. unfold broadcast2. rewrite <- Hx, <- Hy.
  destruct (Nat.eqb (length xs) (length ys)).
  - simpl. now apply zip_with_length_eq.
  - destruct xs as [| x [| x2 xs]], xs' as [| x' [| x2' xs']];
      try discriminate Hx;
      destruct ys as [| y [| y2 ys]], ys' as [| y' [| y2' ys']];
      try discriminate Hy; simpl in *; try reflexivity;
      rewrite ?length_map; congruence.
Qed.

(** X6. The two variants report the same rewards: for every configuration
    and every input, V1 and V2 raise the same error or return loss vectors
    of one length together with identical chosen and rejected rewards. *)
Theorem variants_same_rewards (cfg : Config.loss) (cm rm ck rk : vec) :
  same_outcome
    (fun a a' => length (fst (fst a)) = length (fst (fst a')) /\
                 snd (fst a) = snd (fst a') /\ snd a = snd a')
    (loss1 cfg cm rm ck rk) (loss2 cfg cm rm ck rk).
Proof.
  unfold loss1, loss2, vadd, vsub.
  apply (same_outcome_bind eq); [apply same_outcome_refl; reflexivity |].
  intros cv ? <-.
  apply (same_outcome_bind eq); [apply same_outcome_refl; reflexivity |].
  intros rv ? <-.
  apply (same_outcome_bind eq); [apply same_outcome_refl; reflexivity |].
  intros crm ? <-. cbv zeta.
  apply (same_outcome_bind (fun a a' : vec => length a = length a')).
  { apply broadcast2_same_lengths; [reflexivity |].
    unfold vdetach. now rewrite length_map. }
  intros kd kd' Hkd.
  apply (same_outcome_bind (fun a a' : vec => length a = length a')).
  { apply broadcast2_same_lengths; [reflexivity |].
    unfold vscale. now rewrite length_map. }
  intros lg lg' Hlg. simpl. split; [| split; reflexivity].
  unfold vneg, vlogsigmoid, vscale. now rewrite !length_map.
Qed.

(** X7. In exact arithmetic, with alpha > 0 and beta > 0 and everything
    else fixed, a larger rejected_kl at an index gives a strictly larger V2
    loss at that index, and a larger chosen_margin a strictly smaller
    one. *)
Theorem loss2_monotone
  (cfg : Config.loss) (cm cm' rm ck rk rk' : vec) (N : nat) :
  0 < Config.alpha cfg -> 0 < Config.beta cfg ->
  length cm = N -> length cm' = N -> length rm = N -> length ck = N ->
  length rk = N -> length rk' = N ->
  exists l c r lk ck_ rk_ lm cm_ rm_,
    loss2 cfg cm rm ck rk = inr (l, c, r) /\
    loss2 cfg cm rm ck rk' = inr (lk, ck_, rk_) /\
    loss2 cfg cm' rm ck rk = inr (lm, cm_, rm_) /\
    forall i, (i < N)%nat ->
      (primal (nth i rk zero) < primal (nth i rk' zero) ->
       primal (nth i l zero) < primal (nth i lk zero)) /\
      (primal (nth i cm zero) < primal (nth i cm' zero) ->
       primal (nth i lm zero) < primal (nth i l zero)).
Proof.
  intros Ha Hb Hcm Hcm' Hrm Hck Hrk Hrk'.
  rewrite !loss2_paired by congruence.
  eexists _, _, _, _, _, _, _, _, _.
  split; [reflexivity |]. split; [reflexivity |]. split; [reflexivity |].
  intros i Hi.
  rewrite !(loss_entry cfg N i Hi) by (unfold vscale, vdetach; solve_length).
  rewrite (loss2_logit_entry cfg cm rm ck rk N i) by assumption.
  rewrite (loss2_logit_entry cfg cm rm ck rk' N i) by assumption.
  rewrite (loss2_logit_entry cfg cm' rm ck rk N i) by assumption.
  simpl. split; intros Hlt; apply neg_logsigmoid_strictly_decreasing;
    apply Rmult_lt_compat_l; try exact Hb.
  - assert (Config.alpha cfg * (primal (nth i rk zero) - primal (nth i ck zero))
            < Config.alpha cfg * (primal (nth i rk' zero) - primal (nth i ck zero)))
      by (apply Rmult_lt_compat_l; [exact Ha | lra]).
    lra.
  - lra.
Qed.

Lemma loss2_monotone_witness :
  exists l c r lk ck_ rk_ lm cm_ rm_,
    loss2 (Config.Build_loss 1 1) [const 0] [const 0] [const 0] [const 0] =
      inr (l, c, r) /\
    loss2 (Config.Build_loss 1 1) [const 0] [const 0] [const 0] [const 1] =
      inr (lk, ck_, rk_) /\
    loss2 (Config.Build_loss 1 1) [const 1] [const 0] [const 0] [const 0] =
      inr (lm, cm_, rm_) /\
    forall i, (i < 1)%nat ->
      (primal (nth i [const 0] zero) < primal (nth i [const 1] zero) ->
       primal (nth i l zero) < primal (nth i lk zero)) /\
      (primal (nth i [const 0] zero) < primal (nth i [const 1] zero) ->
       primal (nth i lm zero) < primal (nth i l zero)).
Proof.
  apply (loss2_monotone (Config.Build_loss 1 1)
           [const 0] [const 1] [const 0] [const 0] [const 0] [const 1] 1);
    try reflexivity; simpl; lra.
Defined.

(** ** Forward values of the aligner *)

Lemma primal_mul_mask (x : dual) (m : bool) :
  primal (mul_mask x m) = primal x * (if m then 1 else 0).
Proof. reflexivity. Qed.

Lemma primal_log_prob (x : T3.t dual) (b i v : nat) :
  primal (log_prob x b i v) =
  primal (T3.at_ x b i v) -
  ln (rsum (T3.d2 x) (fun w => exp (primal (T3.at_ x b i w)))).
Proof. unfold log_prob. cbn [primal sub dlog]. now rewrite primal_sum_exp. Qed.

Lemma primal_log_of_prob (x : T3.t dual) (b i v : nat) :
  (v < T3.d2 x)%nat ->
  primal (dlog (prob x b i v)) = primal (log_prob x b i v).
Proof.
  intros Hv. rewrite primal_log_prob. unfold prob.
  cbn [primal dlog div dexp]. rewrite primal_sum_exp.
  symmetry. apply ln_softmax, rsum_exp_pos. lia.
Qed.

Lemma primal_masked_sums_nth (lab : T2.t Z) (q : nat -> nat -> dual) (b : nat) :
  (b < T2.d0 lab)%nat ->
  primal (nth b (masked_sums lab q) zero) =
  rsum (T2.d1 lab - 1)
       (fun i => primal (q b i) * (if mask_at lab b i then 1 else 0)).
Proof.
  intros Hb. rewrite masked_sums_nth by exact Hb.
  rewrite primal_dsum_rsum. reflexivity.
Qed.

Lemma rsum_zero (n : nat) (f : nat -> R) :
  (forall i, (i < n)%nat -> f i = 0) -> rsum n f = 0.
Proof.
  induction n as [| n IH]; intros H; simpl; [reflexivity |].
  rewrite IH by (intros i Hi; apply H; lia). rewrite H by lia. ring.
Qed.

Lemma rsum_nonpos (n : nat) (f : nat -> R) :
  (forall i, (i < n)%nat -> f i <= 0) -> rsum n f <= 0.
Proof.
  induction n as [| n IH]; intros H; simpl; [lra |].
  assert (rsum n f <= 0) by (apply IH; intros i Hi; apply H; lia).
  assert (f n <= 0) by (apply H; lia). lra.
Qed.

Lemma rsum_exp_nonneg (n : nat) (f : nat -> R) :
  0 <= rsum n (fun w => exp (f w)).
Proof.
  induction n as [| n IH]; simpl; [lra |].
  pose proof (exp_pos (f n)). lra.
Qed.

Lemma exp_le_rsum_exp (n : nat) (f : nat -> R) (v : nat) :
  (v < n)%nat -> exp (f v) <= rsum n (fun w => exp (f w)).
Proof.
  induction n as [| n IH]; intros Hv; [lia |]. simpl.
  destruct (Nat.eq_dec v n) as [-> | Hne].
  - pose proof (rsum_exp_nonneg n f). lra.
  - pose proof (exp_pos (f n)).
    assert (exp (f v) <= rsum n (fun w => exp (f w))) by (apply IH; lia). lra.
Qed.

Lemma log_prob_nonpos (x : T3.t dual) (b i v : nat) :
  (v < T3.d2 x)%nat -> primal (log_prob x b i v) <= 0.
Proof.
  intros Hv. rewrite primal_log_prob.
  set (f := fun w => primal (T3.at_ x b i w)).
  change (primal (T3.at_ x b i v)) with (f v).
  pose proof (exp_le_rsum_exp (T3.d2 x) f v Hv) as Hle.
  pose proof (exp_pos (f v)) as Hpos.
  destruct Hle as [Hlt | Heq].
  - apply (ln_increasing _ _ Hpos) in Hlt. rewrite ln_exp in Hlt.
    subst f. cbv beta in *. lra.
  - subst f. cbv beta in *. rewrite <- Heq, ln_exp. lra.
Qed.

(** What a returning call knows about the labels it reads. *)
Lemma runtime_ok_labels (lg rf : T3.t dual) (lab : T2.t Z) (b i : nat) :
  runtime_ok lg rf lab = true ->
  (b < T2.d0 lab)%nat -> (i < T2.d1 lab - 1)%nat ->
  (label_at lab b i < T3.d2 lg)%nat /\ (label_at lab b i < T3.d2 rf)%nat.
Proof.
  unfold runtime_ok. intros Hr Hb Hi.
  destruct (bdim (T3.d2 rf) (T3.d2 lg)); [| discriminate].
  apply andb_true_iff in Hr. destruct Hr as [Hl Hrf].
  rewrite all_indices_ok_spec in Hl, Hrf.
  split; apply index_ok_to_nat; [apply Hl | apply Hrf]; assumption.
Qed.

(** X8. Every entry of the summed log-probability [logps] is at most 0:
    it is a sum of log-probabilities of single tokens. *)
Theorem aligner_logps_nonpositive (lg rf : T3.t dual) (lab : T2.t Z) :
  shapes_ok lg rf lab = true -> runtime_ok lg rf lab = true ->
  exists logps_margin position_kl logps,
    tdpo_get_batch_logps lg rf lab false =
      inr (logps_margin, position_kl, logps) /\
    forall b, (b < T2.d0 lab)%nat -> primal (nth b logps zero) <= 0.
Proof.
  intros Hs Hr.
  rewrite (tdpo_get_batch_logps_returns lg rf lab false Hs Hr).
  eexists _, _, _. split; [reflexivity |].
  intros b Hb. rewrite primal_masked_sums_nth by exact Hb.
  apply rsum_nonpos. intros i Hi.
  unfold token_logp_at. rewrite primal_mul_mask.
  destruct (runtime_ok_labels lg rf lab b i Hr Hb Hi) as [Hl _].
  pose proof (log_prob_nonpos lg b i _ Hl).
  destruct (mask_at lab b i); nra.
Qed.

Lemma aligner_logps_nonpositive_witness :
  exists logps_margin position_kl logps,
    tdpo_get_batch_logps zero_logits_1_2_2 zero_logits_1_2_2 labels_0_0 false =
      inr (logps_margin, position_kl, logps) /\
    forall b, (b < 1)%nat -> primal (nth b logps zero) <= 0.
Proof.
  apply (aligner_logps_nonpositive zero_logits_1_2_2 zero_logits_1_2_2
           labels_0_0); reflexivity.
Defined.




Lemma shapes_ok_reference (lg rf : T3.t dual) (lab : T2.t Z) :
  shapes_ok lg rf lab = true -> shapes_ok rf rf lab = true.
Proof.
  unfold shapes_ok. intros H. apply andb_true_iff in H.
  destruct H as [_ H]. now rewrite H.
Qed.

Lemma runtime_ok_reference (lg rf : T3.t dual) (lab : T2.t Z) :
  runtime_ok lg rf lab = true -> runtime_ok rf rf lab = true.
Proof.
  unfold runtime_ok. rewrite bdim_same.
  destruct (bdim (T3.d2 rf) (T3.d2 lg)); [| discriminate].
  intros H. apply andb_true_iff in H. destruct H as [_ H]. now rewrite H.
Qed.

(** X10. In exact arithmetic, the margin of a sequence is the difference of
    two sequence log-probabilities: that of the policy, and that of the
    reference model (what the aligner returns as [logps] when the reference
    logits are given in the place of the policy logits); the three vectors
    have one entry per sequence. *)
Theorem aligner_margin_is_logps_difference (lg rf : T3.t dual) (lab : T2.t Z) :
  shapes_ok lg rf lab = true -> runtime_ok lg rf lab = true ->
  exists logps_margin position_kl logps margin' kl' reference_logps,
    tdpo_get_batch_logps lg rf lab false =
      inr (logps_margin, position_kl, logps) /\
    tdpo_get_batch_logps rf rf lab false =
      inr (margin', kl', reference_logps) /\
    length logps_margin = T2.d0 lab /\
    length logps = T2.d0 lab /\
    length reference_logps = T2.d0 lab /\
    forall b, (b < T2.d0 lab)%nat ->
      primal (nth b logps_margin zero) =
      primal (nth b logps zero) - primal (nth b reference_logps zero).
Proof.
  intros Hs Hr.
  rewrite (tdpo_get_batch_logps_returns lg rf lab false Hs Hr).
  rewrite (tdpo_get_batch_logps_returns rf rf lab false
             (shapes_ok_reference _ _ _ Hs) (runtime_ok_reference _ _ _ Hr)).
  eexists _, _, _, _, _, _. split; [reflexivity |]. split; [reflexivity |].
  rewrite !masked_sums_length.
  split; [reflexivity |]. split; [reflexivity |]. split; [reflexivity |].
  intros b Hb. rewrite !primal_masked_sums_nth by exact Hb.
  rewrite <- rsum_minus. apply rsum_ext. intros i Hi.
  destruct (runtime_ok_labels lg rf lab b i Hr Hb Hi) as [_ Hrf].
  unfold margin_at, token_logp_at, reference_token_logp_at.
  cbn [primal sub]. rewrite !primal_mul_mask.
  rewrite (primal_log_of_prob rf b i _ Hrf). ring.
Qed.

Lemma aligner_margin_is_logps_difference_witness :
  exists logps_margin position_kl logps margin' kl' reference_logps,
    tdpo_get_batch_logps zero_logits_1_2_1 zero_logits_1_2_2 labels_0_0 false =
      inr (logps_margin, position_kl, logps) /\
    tdpo_get_batch_logps zero_logits_1_2_2 zero_logits_1_2_2 labels_0_0 false =
      inr (margin', kl', reference_logps) /\
    length logps_margin = 1%nat /\
    length logps = 1%nat /\
    length reference_logps = 1%nat /\
    forall b, (b < 1)%nat ->
      primal (nth b logps_margin zero) =
      primal (nth b logps zero) - primal (nth b reference_logps zero).
Proof.
  apply (aligner_margin_is_logps_difference zero_logits_1_2_1 zero_logits_1_2_2
           labels_0_0); reflexivity.
Defined.





(** ** What the aligner does not read *)

Lemma masked_sums_ext (lab : T2.t Z) (q1 q2 : nat -> nat -> dual) :
  (forall b i, (b < T2.d0 lab)%nat -> (i < T2.d1 lab - 1)%nat ->
     mask_at lab b i = true -> q1 b i = q2 b i) ->
  masked_sums lab q1 = masked_sums lab q2.
Proof.
  intros H. unfold masked_sums.
  apply map_ext_in. intros b Hb. apply in_seq_0 in Hb.
  apply dsum_ext. intros i Hi.
  destruct (mask_at lab b i) eqn:Hm.
  - now rewrite (H b i Hb Hi Hm).
  - now rewrite !mul_mask_false.
Qed.

(** X12. In exact arithmetic, the logits of a position whose label is
    masked do not enter the result: two calls on the same labels, whose
    policy logits and whose reference logits agree at every position (b, i)
    with labels[b, i + 1] <> -100, give the same result.  (On floats a
    masked position is multiplied by zero, which does not erase an infinity
    or NaN: see [all_masked_sequence_nan_on_floats].) *)
Theorem aligner_ignores_masked_positions
  (lg1 rf1 lg2 rf2 : T3.t dual) (lab : T2.t Z) (avg : bool) :
  T3.d0 lg1 = T3.d0 lg2 -> T3.d1 lg1 = T3.d1 lg2 -> T3.d2 lg1 = T3.d2 lg2 ->
  T3.d0 rf1 = T3.d0 rf2 -> T3.d1 rf1 = T3.d1 rf2 -> T3.d2 rf1 = T3.d2 rf2 ->
  (forall b i v, (b < T2.d0 lab)%nat -> (i < T2.d1 lab - 1)%nat ->
     T2.at_ lab b (S i) <> SENTINEL ->
     T3.at_ lg1 b i v = T3.at_ lg2 b i v /\
     T3.at_ rf1 b i v = T3.at_ rf2 b i v) ->
  tdpo_get_batch_logps lg1 rf1 lab avg = tdpo_get_batch_logps lg2 rf2 lab avg.
Proof.
  intros Hl0 Hl1 Hl2 Hr0 Hr1 Hr2 Hat.
  rewrite !tdpo_get_batch_logps_closed_form.
  assert (Hshapes : shapes_ok lg1 rf1 lab = shapes_ok lg2 rf2 lab).
  { unfold shapes_ok, T3.shape_init. congruence. }
  assert (Hruntime : runtime_ok lg1 rf1 lab = runtime_ok lg2 rf2 lab).
  { unfold runtime_ok. now rewrite Hl2, Hr2. }
  rewrite <- Hshapes, <- Hruntime.
  destruct (shapes_ok lg1 rf1 lab) eqn:Hs; [| reflexivity].
  destruct (runtime_ok lg1 rf1 lab) eqn:Hr; [| reflexivity].
  f_equal.
  assert (Hunmasked : forall b i, mask_at lab b i = true ->
            T2.at_ lab b (S i) <> SENTINEL).
  { intros b i Hm. unfold mask_at in Hm.
    now apply negb_true_iff, Z.eqb_neq in Hm. }
  assert (Htok : forall b i, (b < T2.d0 lab)%nat -> (i < T2.d1 lab - 1)%nat ->
            mask_at lab b i = true ->
            token_logp_at lg1 lab b i = token_logp_at lg2 lab b i).
  { intros b i Hb Hi Hm. unfold token_logp_at.
    destruct (runtime_ok_labels lg1 rf1 lab b i Hr Hb Hi) as [Hl _].
    rewrite (log_prob_agree lg1 lg2 b i Hl2); [reflexivity | | exact Hl].
    intros v _. apply (Hat b i v Hb Hi (Hunmasked b i Hm)). }
  assert (Href : forall b i, (b < T2.d0 lab)%nat -> (i < T2.d1 lab - 1)%nat ->
            mask_at lab b i = true ->
            reference_token_logp_at rf1 lab b i =
            reference_token_logp_at rf2 lab b i).
  { intros b i Hb Hi Hm. unfold reference_token_logp_at.
    destruct (runtime_ok_labels lg1 rf1 lab b i Hr Hb Hi) as [_ Hrf].
    rewrite (prob_agree rf1 rf2 b i Hr2); [reflexivity | | exact Hrf].
    intros v _. apply (Hat b i v Hb Hi (Hunmasked b i Hm)). }
  assert (Hm : masked_sums lab (margin_at lg1 rf1 lab) =
               masked_sums lab (margin_at lg2 rf2 lab)).
  { apply masked_sums_ext. intros b i Hb Hi Hmask.
    unfold margin_at. now rewrite Htok, Href. }
  assert (Hk : masked_sums lab (kl_at lg1 rf1) = masked_sums lab (kl_at lg2 rf2)).
  { apply masked_sums_ext. intros b i Hb Hi Hmask.
    apply kl_at_agree; try assumption;
      intros v _; apply (Hat b i v Hb Hi (Hunmasked b i Hmask)). }
  assert (Ht : masked_sums lab (token_logp_at lg1 lab) =
               masked_sums lab (token_logp_at lg2 lab)).
  { apply masked_sums_ext. intros b i Hb Hi Hmask. now apply Htok. }
  unfold closed_form. destruct avg; now rewrite Hm, Hk, Ht.
Qed.

Lemma aligner_ignores_masked_positions_witness :
  tdpo_get_batch_logps zero_logits_1_2_1 zero_logits_1_2_1
    labels_all_masked false =
  tdpo_get_batch_logps (T3.mk 1 2 1 (fun _ _ _ => const 3))
    (T3.mk 1 2 1 (fun _ _ _ => const 4)) labels_all_masked false.
Proof.
  apply (aligner_ignores_masked_positions
           zero_logits_1_2_1 zero_logits_1_2_1
           (T3.mk 1 2 1 (fun _ _ _ => const 3))
           (T3.mk 1 2 1 (fun _ _ _ => const 4)) labels_all_masked false);
    try reflexivity.
  intros b i v Hb Hi Hne. exfalso. apply Hne. reflexivity.
Defined.

(** X13. The three results for a sequence depend on that sequence alone:
    two returning calls, on batches of any sizes, whose row b has the same
    shifted labels and the same logits, return the same three entries at
    index b, in the sums and in the averages. *)
Theorem aligner_rows_independent
  (lg1 rf1 : T3.t dual) (lab1 : T2.t Z)
  (lg2 rf2 : T3.t dual) (lab2 : T2.t Z) (b : nat) :
  shapes_ok lg1 rf1 lab1 = true -> runtime_ok lg1 rf1 lab1 = true ->
  shapes_ok lg2 rf2 lab2 = true -> runtime_ok lg2 rf2 lab2 = true ->
  (b < T2.d0 lab1)%nat -> (b < T2.d0 lab2)%nat ->
  T2.d1 lab1 = T2.d1 lab2 ->
  T3.d2 lg1 = T3.d2 lg2 -> T3.d2 rf1 = T3.d2 rf2 ->
  (forall i, (i < T2.d1 lab1 - 1)%nat ->
     T2.at_ lab1 b (S i) = T2.at_ lab2 b (S i)) ->
  (forall i v, (i < T2.d1 lab1 - 1)%nat ->
     T3.at_ lg1 b i v = T3.at_ lg2 b i v /\
     T3.at_ rf1 b i v = T3.at_ rf2 b i v) ->
  (exists m1 kl1 lp1 m2 kl2 lp2,
     tdpo_get_batch_logps lg1 rf1 lab1 false = inr (m1, kl1, lp1) /\
     tdpo_get_batch_logps lg2 rf2 lab2 false = inr (m2, kl2, lp2) /\
     nth b m1 zero = nth b m2 zero /\
     nth b kl1 zero = nth b kl2 zero /\
     nth b lp1 zero = nth b lp2 zero) /\
  (exists m1 kl1 lp1 m2 kl2 lp2,
     tdpo_get_batch_logps lg1 rf1 lab1 true = inr (m1, kl1, lp1) /\
     tdpo_get_batch_logps lg2 rf2 lab2 true = inr (m2, kl2, lp2) /\
     nth b m1 (Fin zero) = nth b m2 (Fin zero) /\
     nth b kl1 (Fin zero) = nth b kl2 (Fin zero) /\
     nth b lp1 (Fin zero) = nth b lp2 (Fin zero)).
Proof.
  intros Hs1 Hr1 Hs2 Hr2 Hb1 Hb2 HL Hl2 Hrf2 Hlab Hat.
  assert (Hmask : forall i, (i < T2.d1 lab1 - 1)%nat ->
            mask_at lab1 b i = mask_at lab2 b i).
  { intros i Hi. unfold mask_at. now rewrite Hlab. }
  assert (Hlabel : forall i, (i < T2.d1 lab1 - 1)%nat ->
            label_at lab1 b i = label_at lab2 b i).
  { intros i Hi. unfold label_at, shifted_labels.
    cbn [T2.map T2.tail1 T2.at_]. now rewrite Hlab. }
  assert (Htok : forall i, (i < T2.d1 lab1 - 1)%nat ->
            token_logp_at lg1 lab1 b i = token_logp_at lg2 lab2 b i).
  { intros i Hi. unfold token_logp_at.
    destruct (runtime_ok_labels lg1 rf1 lab1 b i Hr1 Hb1 Hi) as [Hl _].
    rewrite <- Hmask, <- Hlabel by exact Hi.
    rewrite (log_prob_agree lg1 lg2 b i Hl2); [reflexivity | | exact Hl].
    intros v _. apply (Hat i v Hi). }
  assert (Href : forall i, (i < T2.d1 lab1 - 1)%nat ->
            reference_token_logp_at rf1 lab1 b i =
            reference_token_logp_at rf2 lab2 b i).
  { intros i Hi. unfold reference_token_logp_at.
    destruct (runtime_ok_labels lg1 rf1 lab1 b i Hr1 Hb1 Hi) as [_ Hrf].
    rewrite <- Hmask, <- Hlabel by exact Hi.
    rewrite (prob_agree rf1 rf2 b i Hrf2); [reflexivity | | exact Hrf].
    intros v _. apply (Hat i v Hi). }
  assert (Hkl : forall i, (i < T2.d1 lab1 - 1)%nat ->
            kl_at lg1 rf1 b i = kl_at lg2 rf2 b i).
  { intros i Hi. apply kl_at_agree; try assumption;
      intros v _; apply (Hat i v Hi). }
  assert (Hsum : forall q1 q2,
            (forall i, (i < T2.d1 lab1 - 1)%nat -> q1 b i = q2 b i) ->
            nth b (masked_sums lab1 q1) zero = nth b (masked_sums lab2 q2) zero).
  { intros q1 q2 Hq. rewrite !masked_sums_nth by assumption.
    rewrite <- HL. apply dsum_ext. intros i Hi.
    now rewrite Hq, Hmask. }
  assert (Hcount : nth b (mask_counts lab1) 0%Z = nth b (mask_counts lab2) 0%Z).
  { rewrite !mask_counts_nth by assumption. rewrite <- HL.
    apply count_ext. exact Hmask. }
  assert (Hquot : forall q1 q2,
            (forall i, (i < T2.d1 lab1 - 1)%nat -> q1 b i = q2 b i) ->
            nth b (zip_with div_count (masked_sums lab1 q1) (mask_counts lab1))
                (Fin zero) =
            nth b (zip_with div_count (masked_sums lab2 q2) (mask_counts lab2))
                (Fin zero)).
  { intros q1 q2 Hq.
    rewrite !(zip_with_nth _ _ _ _ zero 0%Z)
      by (rewrite masked_sums_length, ?mask_counts_length; auto).
    now rewrite (Hsum q1 q2 Hq), Hcount. }
  assert (Hmargin : forall i, (i < T2.d1 lab1 - 1)%nat ->
            margin_at lg1 rf1 lab1 b i = margin_at lg2 rf2 lab2 b i).
  { intros i Hi. unfold margin_at. now rewrite Htok, Href. }
  split.
  - rewrite (tdpo_get_batch_logps_returns lg1 rf1 lab1 false Hs1 Hr1).
    rewrite (tdpo_get_batch_logps_returns lg2 rf2 lab2 false Hs2 Hr2).
    eexists _, _, _, _, _, _. split; [reflexivity |]. split; [reflexivity |].
    repeat split; apply Hsum; assumption.
  - rewrite (tdpo_get_batch_logps_returns lg1 rf1 lab1 true Hs1 Hr1).
    rewrite (tdpo_get_batch_logps_returns lg2 rf2 lab2 true Hs2 Hr2).
    eexists _, _, _, _, _, _. split; [reflexivity |]. split; [reflexivity |].
    repeat split; apply Hquot; assumption.
Qed.

Lemma aligner_rows_independent_witness :
  (exists m1 kl1 lp1 m2 kl2 lp2,
     tdpo_get_batch_logps zero_logits_1_2_2 zero_logits_1_2_2 labels_0_0 false
       = inr (m1, kl1, lp1) /\
     tdpo_get_batch_logps
       (T3.mk 2 2 2 (fun b _ _ => match b with O => zero | _ => const 1 end))
       (T3.mk 2 2 2 (fun b _ _ => match b with O => zero | _ => const 2 end))
       (T2.mk 2 2 (fun b _ => match b with O => 0%Z | _ => 1%Z end)) false
       = inr (m2, kl2, lp2) /\
     nth 0 m1 zero = nth 0 m2 zero /\
     nth 0 kl1 zero = nth 0 kl2 zero /\
     nth 0 lp1 zero = nth 0 lp2 zero) /\
  (exists m1 kl1 lp1 m2 kl2 lp2,
     tdpo_get_batch_logps zero_logits_1_2_2 zero_logits_1_2_2 labels_0_0 true
       = inr (m1, kl1, lp1) /\
     tdpo_get_batch_logps
       (T3.mk 2 2 2 (fun b _ _ => match b with O => zero | _ => const 1 end))
       (T3.mk 2 2 2 (fun b _ _ => match b with O => zero | _ => const 2 end))
       (T2.mk 2 2 (fun b _ => match b with O => 0%Z | _ => 1%Z end)) true
       = inr (m2, kl2, lp2) /\
     nth 0 m1 (Fin zero) = nth 0 m2 (Fin zero) /\
     nth 0 kl1 (Fin zero) = nth 0 kl2 (Fin zero) /\
     nth 0 lp1 (Fin zero) = nth 0 lp2 (Fin zero)).
Proof.
  apply (aligner_rows_independent
           zero_logits_1_2_2 zero_logits_1_2_2 labels_0_0
           (T3.mk 2 2 2 (fun b _ _ => match b with O => zero | _ => const 1 end))
           (T3.mk 2 2 2 (fun b _ _ => match b with O => zero | _ => const 2 end))
           (T2.mk 2 2 (fun b _ => match b with O => 0%Z | _ => 1%Z end)) 0);
    try reflexivity; try (simpl; lia).
  intros i v Hi. split; reflexivity.
Defined.

(** ** Shifting the logits *)

Lemma rsum_scal_l (n : nat) (k : R) (f : nat -> R) :
  rsum n (fun i => k * f i) = k * rsum n f.
Proof. induction n as [| n IH]; simpl; [| rewrite IH]; ring. Qed.

Section Shift.

Variables (x y : T3.t dual) (b i : nat) (c : R).
Hypothesis Hd2 : T3.d2 x = T3.d2 y.
Hypothesis Hshift :
  forall v, (v < T3.d2 x)%nat ->
            primal (T3.at_ y b i v) = primal (T3.at_ x b i v) + c.

Lemma rsum_exp_shift :
  rsum (T3.d2 y) (fun w => exp (primal (T3.at_ y b i w))) =
  exp c * rsum (T3.d2 x) (fun w => exp (primal (T3.at_ x b i w))).
Proof.
  rewrite <- Hd2, <- rsum_scal_l. apply rsum_ext. intros w Hw.
  rewrite (Hshift w Hw), exp_plus. ring.
Qed.

Lemma primal_log_prob_shift (v : nat) :
  (v < T3.d2 x)%nat -> primal (log_prob y b i v) = primal (log_prob x b i v).
Proof.
  intros Hv. rewrite !primal_log_prob, rsum_exp_shift, (Hshift v Hv).
  rewrite ln_mult by (auto using exp_pos; apply rsum_exp_pos; lia).
  rewrite ln_exp. ring.
Qed.

Lemma primal_prob_shift (v : nat) :
  (v < T3.d2 x)%nat -> primal (prob y b i v) = primal (prob x b i v).
Proof.
  intros Hv. unfold prob. cbn [primal div dexp].
  rewrite !primal_sum_exp, rsum_exp_shift, (Hshift v Hv), exp_plus.
  pose proof (exp_pos c).
  pose proof (rsum_exp_pos (T3.d2 x) (fun w => primal (T3.at_ x b i w))
                ltac:(lia)).
  field. split; lra.
Qed.

End Shift.

(** X14. Adding to the policy logits of every position a number of its own,
    and likewise to the reference logits, changes no forward value of the
    three results: the aligner reads the logits only through softmax. *)
Theorem aligner_shift_invariant
  (lg1 rf1 lg2 rf2 : T3.t dual) (lab : T2.t Z) (c c' : nat -> nat -> R) :
  shapes_ok lg1 rf1 lab = true -> runtime_ok lg1 rf1 lab = true ->
  T3.d0 lg1 = T3.d0 lg2 -> T3.d1 lg1 = T3.d1 lg2 -> T3.d2 lg1 = T3.d2 lg2 ->
  T3.d0 rf1 = T3.d0 rf2 -> T3.d1 rf1 = T3.d1 rf2 -> T3.d2 rf1 = T3.d2 rf2 ->
  (forall b i v, (b < T2.d0 lab)%nat -> (i < T2.d1 lab - 1)%nat ->
     primal (T3.at_ lg2 b i v) = primal (T3.at_ lg1 b i v) + c b i /\
     primal (T3.at_ rf2 b i v) = primal (T3.at_ rf1 b i v) + c' b i) ->
  exists m1 kl1 lp1 m2 kl2 lp2,
    tdpo_get_batch_logps lg1 rf1 lab false = inr (m1, kl1, lp1) /\
    tdpo_get_batch_logps lg2 rf2 lab false = inr (m2, kl2, lp2) /\
    forall b, (b < T2.d0 lab)%nat ->
      primal (nth b m2 zero) = primal (nth b m1 zero) /\
      primal (nth b kl2 zero) = primal (nth b kl1 zero) /\
      primal (nth b lp2 zero) = primal (nth b lp1 zero).
Proof.
  intros Hs Hr Hl0 Hl1 Hl2 Hr0 Hr1 Hr2 Hshift.
  assert (Hs' : shapes_ok lg2 rf2 lab = true).
  { rewrite <- Hs. unfold shapes_ok, T3.shape_init. congruence. }
  assert (Hr' : runtime_ok lg2 rf2 lab = true).
  { rewrite <- Hr. unfold runtime_ok. now rewrite Hl2, Hr2. }
  rewrite (tdpo_get_batch_logps_returns lg1 rf1 lab false Hs Hr).
  rewrite (tdpo_get_batch_logps_returns lg2 rf2 lab false Hs' Hr').
  eexists _, _, _, _, _, _. split; [reflexivity |]. split; [reflexivity |].
  intros b Hb. rewrite !primal_masked_sums_nth by exact Hb.
  assert (Hlp : forall i v, (i < T2.d1 lab - 1)%nat -> (v < T3.d2 lg1)%nat ->
            primal (log_prob lg2 b i v) = primal (log_prob lg1 b i v)).
  { intros i v Hi Hv.
    apply (primal_log_prob_shift lg1 lg2 b i (c b i) Hl2); [| exact Hv].
    intros w _. apply (Hshift b i w Hb Hi). }
  assert (Hp : forall i v, (i < T2.d1 lab - 1)%nat -> (v < T3.d2 rf1)%nat ->
            primal (prob rf2 b i v) = primal (prob rf1 b i v)).
  { intros i v Hi Hv.
    apply (primal_prob_shift rf1 rf2 b i (c' b i) Hr2); [| exact Hv].
    intros w _. apply (Hshift b i w Hb Hi). }
  assert (Htok : forall i, (i < T2.d1 lab - 1)%nat ->
            primal (token_logp_at lg2 lab b i) =
            primal (token_logp_at lg1 lab b i)).
  { intros i Hi. unfold token_logp_at. rewrite !primal_mul_mask.
    destruct (runtime_ok_labels lg1 rf1 lab b i Hr Hb Hi) as [Hl _].
    now rewrite (Hlp i _ Hi Hl). }
  split; [| split]; apply rsum_ext; intros i Hi.
  - unfold margin_at. cbn [primal sub]. rewrite (Htok i Hi).
    unfold reference_token_logp_at. rewrite !primal_mul_mask.
    destruct (runtime_ok_labels lg1 rf1 lab b i Hr Hb Hi) as [_ Hrf].
    cbn [primal dlog]. now rewrite (Hp i _ Hi Hrf).
  - f_equal. unfold kl_at, kl_width. rewrite <- Hl2, <- Hr2.
    unfold runtime_ok in Hr.
    destruct (bdim (T3.d2 rf1) (T3.d2 lg1)) as [w |] eqn:Hw; [| discriminate].
    rewrite !primal_dsum_rsum. apply rsum_ext. intros v Hv.
    destruct (bidx_bound _ _ _ v Hw Hv) as [Hvr Hvl].
    cbn [primal mul sub dlog].
    now rewrite (Hp i _ Hi Hvr), (Hlp i _ Hi Hvl).
  - now rewrite (Htok i Hi).
Qed.

Lemma aligner_shift_invariant_witness :
  exists m1 kl1 lp1 m2 kl2 lp2,
    tdpo_get_batch_logps zero_logits_1_2_2 zero_logits_1_2_2 labels_0_0 false =
      inr (m1, kl1, lp1) /\
    tdpo_get_batch_logps (T3.mk 1 2 2 (fun _ _ _ => const 5))
      (T3.mk 1 2 2 (fun _ _ _ => const 7)) labels_0_0 false =
      inr (m2, kl2, lp2) /\
    forall b, (b < 1)%nat ->
      primal (nth b m2 zero) = primal (nth b m1 zero) /\
      primal (nth b kl2 zero) = primal (nth b kl1 zero) /\
      primal (nth b lp2 zero) = primal (nth b lp1 zero).
Proof.
  apply (aligner_shift_invariant zero_logits_1_2_2 zero_logits_1_2_2
           (T3.mk 1 2 2 (fun _ _ _ => const 5))
           (T3.mk 1 2 2 (fun _ _ _ => const 7)) labels_0_0
           (fun _ _ => 5) (fun _ _ => 7)); try reflexivity.
  intros b i v Hb Hi. simpl. split; lra.
Defined.

(** ** The batch orchestrator *)

Lemma rsum_pos (n : nat) (f : nat -> R) :
  (0 < n)%nat -> (forall i, (i < n)%nat -> 0 < f i) -> 0 < rsum n f.
Proof.
  intros Hn Hf.
  destruct n as [| n]; [lia |]. simpl.
  assert (0 <= rsum n f).
  { rewrite <- (rsum_zero n (fun _ => 0)) by reflexivity.
    apply rsum_le. intros i Hi. apply Rlt_le, Hf. lia. }
  assert (0 < f n) by (apply Hf; lia). lra.
Qed.


Lemma mean_nonempty (v : vec) :
  (0 < length v)%nat ->
  exists x, mean v = Fin x /\
            primal x =
            rsum (length v) (fun i => primal (nth i v zero)) / INR (length v).
Proof.
  intros Hv. unfold mean, div_count.
  destruct (Z.eqb_spec (Z.of_nat (length v)) 0) as [H0 | _]; [lia |].
  eexists. split; [reflexivity |].
  cbn [primal div const]. now rewrite primal_dsum_rsum, INR_IZR_INZ.
Qed.

Lemma mean_positive (v : vec) :
  (0 < length v)%nat -> Forall (fun x => 0 < primal x) v ->
  exists x, mean v = Fin x /\ 0 < primal x.
Proof.
  intros Hv Hpos. destruct (mean_nonempty v Hv) as (x & Hx & Hp).
  exists x. split; [exact Hx |]. rewrite Hp.
  apply Rdiv_lt_0_compat; [| now apply lt_0_INR].
  apply rsum_pos; [exact Hv |]. intros i Hi.
  rewrite Forall_forall in Hpos. apply Hpos, nth_In, Hi.
Qed.


Lemma halves_length (lab : T2.t Z) (q : nat -> nat -> dual) (n : nat) :
  length (firstn n (masked_sums lab q)) = Nat.min n (T2.d0 lab) /\
  length (skipn n (masked_sums lab q)) = (T2.d0 lab - n)%nat.
Proof. now rewrite length_firstn, length_skipn, masked_sums_length. Qed.

Section OrchestratorProperties.

Variable batch : Type.
Variable chosen_input_ids : batch -> T2.t Z.
Variable concatenated_inputs : tdpo_model -> batch -> concatenated_batch.

(** [forward] in closed form: the aligner's sums on the two model outputs,
    cut at the number of chosen sequences. *)
Lemma forward_closed_form (self : tdpo_model) (model : language_model)
  (batch_ : batch) (average_log_prob : bool) :
  forward batch chosen_input_ids concatenated_inputs
     self model batch_ average_log_prob =
  let cb := concatenated_inputs self batch_ in
  let lg := all_logits self model cb in
  let rf := reference_all_logits self cb in
  let lab := concatenated_labels cb in
  let n := T2.d0 (chosen_input_ids batch_) in
  if shapes_ok lg rf lab
  then if runtime_ok lg rf lab
       then inr (firstn n (masked_sums lab (margin_at lg rf lab)),
                 skipn n (masked_sums lab (margin_at lg rf lab)),
                 firstn n (masked_sums lab (kl_at lg rf)),
                 skipn n (masked_sums lab (kl_at lg rf)),
                 vdetach (firstn n (masked_sums lab (token_logp_at lg lab))),
                 vdetach (skipn n (masked_sums lab (token_logp_at lg lab))))
       else inl RuntimeError
  else inl AssertionError.
Proof.
  unfold forward. cbv zeta.
  fold (all_logits self model (concatenated_inputs self batch_)).
  fold (all_logits self (reference_model self)
          (concatenated_inputs self batch_)).
  fold (reference_all_logits self (concatenated_inputs self batch_)).
  rewrite tdpo_get_batch_logps_closed_form.
  destruct (shapes_ok _ _ _); [| reflexivity].
  destruct (runtime_ok _ _ _); reflexivity.
Qed.

(** X15. [forward] fails exactly as the aligner does on the two model
    outputs and adds no failure of its own: an assertion error when the
    (batch, length) shape of either output differs from the shape of the
    labels, a runtime error when the shapes match and the vocabularies do
    not broadcast or a label is no token, a result otherwise. *)
Theorem forward_raises_as_aligner (self : tdpo_model) (model : language_model)
  (batch_ : batch) (average_log_prob : bool) :
  let cb := concatenated_inputs self batch_ in
  let lg := all_logits self model cb in
  let rf := reference_all_logits self cb in
  let lab := concatenated_labels cb in
  (forward batch chosen_input_ids concatenated_inputs
     self model batch_ average_log_prob = inl AssertionError <->
   shapes_ok lg rf lab = false) /\
  (forward batch chosen_input_ids concatenated_inputs
     self model batch_ average_log_prob = inl RuntimeError <->
   shapes_ok lg rf lab = true /\ runtime_ok lg rf lab = false) /\
  ((exists o, forward batch chosen_input_ids concatenated_inputs
     self model batch_ average_log_prob = inr o) <->
   shapes_ok lg rf lab = true /\ runtime_ok lg rf lab = true).
Proof.
  cbv zeta. rewrite forward_closed_form. cbv zeta.
  destruct (shapes_ok _ _ _); [destruct (runtime_ok _ _ _) |].
  - split; [split; discriminate |].
    split; [split; [discriminate | intros [_ H]; discriminate H] |].
    split; [intros _; split; reflexivity | intros _; eexists; reflexivity].
  - split; [split; discriminate |].
    split; [split; [intros _; split; reflexivity | reflexivity] |].
    split; [intros [o H]; discriminate H | intros [_ H]; discriminate H].
  - split; [split; reflexivity |].
    split; [split; [discriminate | intros [H _]; discriminate H] |].
    split; [intros [o H]; discriminate H | intros [H _]; discriminate H].
Qed.

(** X16. When the aligner returns, [forward] returns its three vectors cut
    at n, the number of rows of [chosen_input_ids]: each chosen part
    followed by its rejected part is the aligner's vector (detached, for
    the log-probabilities), the chosen parts have min(n, rows) entries and
    the rejected parts rows - n, where rows is the number of rows of the
    concatenated labels. *)
Theorem forward_splits_at_chosen_count (self : tdpo_model)
  (model : language_model) (batch_ : batch) (average_log_prob : bool) :
  let cb := concatenated_inputs self batch_ in
  let lg := all_logits self model cb in
  let rf := reference_all_logits self cb in
  let lab := concatenated_labels cb in
  let n := T2.d0 (chosen_input_ids batch_) in
  shapes_ok lg rf lab = true -> runtime_ok lg rf lab = true ->
  exists all_logps_margin all_position_kl all_logps cm rm ck rk cl rl,
    tdpo_get_batch_logps lg rf lab false =
      inr (all_logps_margin, all_position_kl, all_logps) /\
    forward batch chosen_input_ids concatenated_inputs
     self model batch_ average_log_prob =
      inr (cm, rm, ck, rk, cl, rl) /\
    cm ++ rm = all_logps_margin /\
    ck ++ rk = all_position_kl /\
    cl ++ rl = vdetach all_logps /\
    length cm = Nat.min n (T2.d0 lab) /\ length rm = (T2.d0 lab - n)%nat /\
    length ck = Nat.min n (T2.d0 lab) /\ length rk = (T2.d0 lab - n)%nat /\
    length cl = Nat.min n (T2.d0 lab) /\ length rl = (T2.d0 lab - n)%nat.
Proof.
  cbv zeta. intros Hs Hr.
  rewrite forward_closed_form. cbv zeta. rewrite Hs, Hr.
  rewrite (tdpo_get_batch_logps_returns _ _ _ false Hs Hr).
  eexists _, _, _, _, _, _, _, _, _.
  split; [reflexivity |]. split; [reflexivity |].
  split; [apply firstn_skipn |]. split; [apply firstn_skipn |].
  split; [unfold vdetach; rewrite <- map_app; now rewrite firstn_skipn |].
  unfold vdetach. rewrite !length_map.
  repeat split; apply halves_length.
Qed.

Lemma no_grad_agree (x y : T3.t dual) :
  T3.d0 x = T3.d0 y -> T3.d1 x = T3.d1 y -> T3.d2 x = T3.d2 y ->
  (forall b i v, (b < T3.d0 x)%nat -> (i < T3.d1 x)%nat -> (v < T3.d2 x)%nat ->
                 primal (T3.at_ x b i v) = primal (T3.at_ y b i v)) ->
  agree3 (T3.init1 (no_grad x)) (T3.init1 (no_grad y)).
Proof.
  intros H0 H1 H2 Hv. unfold agree3, no_grad. cbn.
  repeat split; try congruence.
  intros b i v Hb Hi Hvlt. unfold detach. f_equal.
  apply Hv; [exact Hb | lia | exact Hvlt].
Qed.

(** X17. The reference network enters [forward] by the forward values of
    its logits alone: two models that treat the batch alike and whose
    reference logits have the same shape and the same forward values,
    whatever gradient information these carry, give the same result, its
    tangents included. *)
Theorem forward_reference_values_only (self self' : tdpo_model)
  (model : language_model) (batch_ : batch) (average_log_prob : bool) :
  let cb := concatenated_inputs self batch_ in
  let r := all_logits self (reference_model self) cb in
  let r' := all_logits self' (reference_model self') cb in
  concatenated_inputs self' batch_ = cb ->
  is_mistral self' = is_mistral self ->
  T3.d0 r = T3.d0 r' -> T3.d1 r = T3.d1 r' -> T3.d2 r = T3.d2 r' ->
  (forall b i v, (b < T3.d0 r)%nat -> (i < T3.d1 r)%nat -> (v < T3.d2 r)%nat ->
                 primal (T3.at_ r b i v) = primal (T3.at_ r' b i v)) ->
  forward batch chosen_input_ids concatenated_inputs
     self model batch_ average_log_prob =
  forward batch chosen_input_ids concatenated_inputs
     self' model batch_ average_log_prob.
Proof.
  cbv zeta. intros Hcb Hm H0 H1 H2 Hv.
  unfold forward. cbv zeta. rewrite Hcb, Hm.
  match goal with
  | |- bind ?a _ = bind ?b _ => replace b with a; [reflexivity |]
  end.
  unfold all_logits in H0, H1, H2, Hv. rewrite Hm in H0, H1, H2, Hv.
  apply tdpo_get_batch_logps_agree.
  - reflexivity.
  - exact H1.
  - reflexivity.
  - apply agree2_refl.
  - apply agree3_refl.
  - apply no_grad_agree; assumption.
Qed.

(** [get_batch_metrics] on six vectors of one length: the loss is the mean
    of the entries -logsigmoid(beta * logit), the logit being that of the
    class of the model. *)
Lemma get_batch_metrics_paired (self : tdpo_model) (batch_ : batch)
  (mode : option String.string) (cm rm ck rk cl rl : vec) (N : nat) :
  forward batch chosen_input_ids concatenated_inputs
     self (policy self) batch_ false = inr (cm, rm, ck, rk, cl, rl) ->
  length cm = N -> length rm = N -> length ck = N -> length rk = N ->
  exists logits metrics,
    get_batch_metrics batch chosen_input_ids concatenated_inputs
      self batch_ mode =
      inr (mean (vneg (vlogsigmoid
                   (vscale (Config.beta (config_loss self)) logits))),
           metrics) /\
    length logits = N /\
    forall i, (i < N)%nat ->
      primal (nth i logits zero) =
      match class_ self with
      | TDPO1 => logit1 (primal (nth i cm zero)) (primal (nth i rm zero))
                        (primal (nth i ck zero)) (primal (nth i rk zero))
      | TDPO2 => logit2 (Config.alpha (config_loss self))
                        (primal (nth i cm zero)) (primal (nth i rm zero))
                        (primal (nth i ck zero)) (primal (nth i rk zero))
      end.
Proof.
  intros Hf Hcm Hrm Hck Hrk.
  unfold get_batch_metrics. cbv zeta. rewrite Hf. cbn [bind].
  unfold loss. destruct (class_ self).
  - rewrite loss1_paired by congruence. cbn [bind].
    unfold reward_accuracies, vsub.
    rewrite (broadcast2_same_length gtb)
      by (rewrite length_rev; unfold vscale, vdetach; solve_length).
    unfold ret; cbn [bind].
    rewrite !(broadcast2_same_length sub)
      by (unfold vscale, vdetach; solve_length).
    unfold ret; cbn [bind].
    eexists _, _. split; [reflexivity |].
    split; [solve_length |].
    intros i Hi.
    rewrite (loss1_logit_entry cm rm ck rk N i) by assumption.
    reflexivity.
  - rewrite loss2_paired by congruence. cbn [bind].
    unfold reward_accuracies, vsub.
    rewrite (broadcast2_same_length gtb)
      by (rewrite length_rev; unfold vscale, vdetach; solve_length).
    unfold ret; cbn [bind].
    rewrite !(broadcast2_same_length sub)
      by (unfold vscale, vdetach; solve_length).
    unfold ret; cbn [bind].
    eexists _, _. split; [reflexivity |].
    split; [unfold vscale, vdetach; solve_length |].
    intros i Hi.
    rewrite (loss2_logit_entry (config_loss self) cm rm ck rk N i)
      by assumption.
    unfold logit2. cbn. ring.
Qed.

(** X18. In exact arithmetic, on a batch of n >= 1 chosen and n rejected
    sequences that the aligner accepts, [get_batch_metrics] returns, for
    either class, a loss that is no quotient by zero and is strictly
    positive. *)
Theorem get_batch_metrics_loss_positive (self : tdpo_model) (batch_ : batch)
  (mode : option String.string) :
  let cb := concatenated_inputs self batch_ in
  let lg := all_logits self (policy self) cb in
  let rf := reference_all_logits self cb in
  let lab := concatenated_labels cb in
  let n := T2.d0 (chosen_input_ids batch_) in
  shapes_ok lg rf lab = true -> runtime_ok lg rf lab = true ->
  T2.d0 lab = (n + n)%nat -> (0 < n)%nat ->
  exists x metrics,
    get_batch_metrics batch chosen_input_ids concatenated_inputs
      self batch_ mode = inr (Fin x, metrics) /\
    0 < primal x.
Proof.
  cbv zeta. intros Hs Hr Hrows Hn.
  pose proof (forward_closed_form self (policy self) batch_ false) as Hf.
  cbv zeta in Hf. rewrite Hs, Hr in Hf.
  destruct (get_batch_metrics_paired self batch_ mode _ _ _ _ _ _
              (T2.d0 (chosen_input_ids batch_)) Hf)
    as (logits & metrics & Hg & Hlen & _);
    try (rewrite ?length_firstn, ?length_skipn, masked_sums_length; lia).
  destruct (mean_positive
              (vneg (vlogsigmoid
                 (vscale (Config.beta (config_loss self)) logits))))
    as (x & Hx & Hpos).
  - unfold vneg, vlogsigmoid, vscale. rewrite !length_map. lia.
  - apply loss_vector_positive.
  - exists x, metrics. rewrite Hg, Hx. split; [reflexivity | exact Hpos].
Qed.

(** X19. On a batch without any sequence, [get_batch_metrics] raises
    nothing: the mean of no losses is 0/0, and the loss it returns is
    NaN. *)
Theorem get_batch_metrics_empty_batch (self : tdpo_model) (batch_ : batch)
  (mode : option String.string) :
  let cb := concatenated_inputs self batch_ in
  let lg := all_logits self (policy self) cb in
  let rf := reference_all_logits self cb in
  let lab := concatenated_labels cb in
  shapes_ok lg rf lab = true -> runtime_ok lg rf lab = true ->
  T2.d0 lab = 0%nat ->
  exists loss_ metrics,
    get_batch_metrics batch chosen_input_ids concatenated_inputs
      self batch_ mode = inr (loss_, metrics) /\
    is_nan loss_.
Proof.
  cbv zeta. intros Hs Hr Hrows.
  pose proof (forward_closed_form self (policy self) batch_ false) as Hf.
  cbv zeta in Hf. rewrite Hs, Hr in Hf.
  destruct (get_batch_metrics_paired self batch_ mode _ _ _ _ _ _ 0%nat Hf)
    as (logits & metrics & Hg & Hlen & _);
    try (rewrite ?length_firstn, ?length_skipn, masked_sums_length; lia).
  apply length_zero_iff_nil in Hlen. subst logits.
  eexists _, metrics. split; [exact Hg |]. reflexivity.
Qed.


(** X21. A batch that the aligner accepts and that does not pair up makes
    [get_batch_metrics] raise a runtime error in the loss: with N =
    min(n, rows) chosen and M = rows - n rejected sequences, N and M
    different and neither equal to 1. *)
Theorem get_batch_metrics_rejects_unpaired_batch (self : tdpo_model)
  (batch_ : batch) (mode : option String.string) :
  let cb := concatenated_inputs self batch_ in
  let lg := all_logits self (policy self) cb in
  let rf := reference_all_logits self cb in
  let lab := concatenated_labels cb in
  let n := T2.d0 (chosen_input_ids batch_) in
  shapes_ok lg rf lab = true -> runtime_ok lg rf lab = true ->
  Nat.min n (T2.d0 lab) <> (T2.d0 lab - n)%nat ->
  Nat.min n (T2.d0 lab) <> 1%nat -> (T2.d0 lab - n)%nat <> 1%nat ->
  get_batch_metrics batch chosen_input_ids concatenated_inputs
      self batch_ mode = inl RuntimeError.
Proof.
  cbv zeta. intros Hs Hr Hne HN HM.
  unfold get_batch_metrics. cbv zeta.
  rewrite forward_closed_form. cbv zeta. rewrite Hs, Hr. cbn [bind].
  unfold loss.
  destruct (class_ self); unfold loss1, loss2, vadd, vsub;
    rewrite !(broadcast2_same_length add)
      by (rewrite ?length_firstn, ?length_skipn, !masked_sums_length;
          reflexivity);
    unfold ret; cbn [bind];
    rewrite (broadcast2_mismatch sub)
      by (rewrite ?length_firstn, ?length_skipn, !masked_sums_length;
          assumption);
    reflexivity.
Qed.

(** X22. Whenever [get_batch_metrics] returns, the mapping it returns has
    ten entries under ten different keys, in the order of the assignments,
    for every mode; the entry of the loss is the returned loss, detached. *)
Theorem get_batch_metrics_keys (self : tdpo_model) (batch_ : batch)
  (mode : option String.string) (losses : quot) (metrics : dict) :
  get_batch_metrics batch chosen_input_ids concatenated_inputs
      self batch_ mode = inr (losses, metrics) ->
  let mode_ := match mode with None => config_mode self | Some m => m end in
  List.map fst metrics =
    [key "rewards" mode_ "chosen"; key "rewards" mode_ "rejected";
     key "rewards" mode_ "accuracies"; key "rewards" mode_ "margins";
     key "logps" mode_ "rejected"; key "logps" mode_ "chosen";
     loss_key mode_;
     key "kl" mode_ "chosen"; key "kl" mode_ "rejected";
     key "kl" mode_ "margin"] /\
  NoDup (List.map fst metrics) /\
  dict_get metrics (loss_key mode_) = Some (Scalar (detach_quot losses)).
Proof.
  intros H. cbv zeta. unfold get_batch_metrics in H.
  remember (match mode with None => config_mode self | Some m => m end)
    as mode_ eqn:Hmode. clear Hmode.
  destruct (forward batch chosen_input_ids concatenated_inputs
     self (policy self) batch_ false)
    as [e | [[[[[cm rm] ck] rk] cl] rl]]; [discriminate |].
  cbn [bind] in H.
  destruct (loss self cm rm ck rk) as [e | [[ls cr] rr]]; [discriminate |].
  cbn [bind] in H.
  destruct (reward_accuracies cr rr) as [e | acc]; [discriminate |].
  cbn [bind] in H.
  destruct (vsub cr rr) as [e | margins]; [discriminate |].
  cbn [bind] in H.
  destruct (vsub ck rk) as [e | klm]; [discriminate |].
  cbn [bind] in H. unfold ret in H. injection H as <- <-.
  assert (Hkeys : List.map fst
    (detach_float_metrics
       (dict_set (dict_set (dict_set (dict_set (dict_set (dict_set (dict_set
          (dict_set (dict_set (dict_set []
             (key "rewards" mode_ "chosen") (Vector cr))
             (key "rewards" mode_ "rejected") (Vector rr))
             (key "rewards" mode_ "accuracies") (Vector acc))
             (key "rewards" mode_ "margins") (Vector margins))
             (key "logps" mode_ "rejected") (Vector rl))
             (key "logps" mode_ "chosen") (Vector cl))
             (loss_key mode_) (Scalar (mean ls)))
             (key "kl" mode_ "chosen") (Vector ck))
             (key "kl" mode_ "rejected") (Vector rk))
             (key "kl" mode_ "margin") (Vector klm))) =
    [key "rewards" mode_ "chosen"; key "rewards" mode_ "rejected";
     key "rewards" mode_ "accuracies"; key "rewards" mode_ "margins";
     key "logps" mode_ "rejected"; key "logps" mode_ "chosen";
     loss_key mode_;
     key "kl" mode_ "chosen"; key "kl" mode_ "rejected";
     key "kl" mode_ "margin"]).
  { repeat (progress (cbn [dict_set]; decide_keys)). reflexivity. }
  split; [exact Hkeys |]. split.
  - refine (eq_ind_r (@NoDup String.string) _ Hkeys).
    repeat (apply NoDup_cons;
            [cbn [In]; intros Hin;
             repeat (destruct Hin as [Hin | Hin];
                     [apply String.eqb_eq in Hin; revert Hin;
                      replace (String.eqb _ _) with false
                        by (symmetry; key_neq); discriminate |]);
             exact Hin |]).
    apply NoDup_nil.
  - repeat (progress (cbn [dict_set]; decide_keys)).
    cbn [detach_float_metrics List.map fst snd dict_get]. decide_keys.
    reflexivity.
Qed.

End OrchestratorProperties.

Lemma forward_splits_at_chosen_count_witness :
  exists all_logps_margin all_position_kl all_logps cm rm ck rk cl rl,
    tdpo_get_batch_logps
      (all_logits (example_model TDPO1) example_network example_batch)
      (reference_all_logits (example_model TDPO1) example_batch)
      example_labels_2_2 false =
      inr (all_logps_margin, all_position_kl, all_logps) /\
    forward unit example_chosen_input_ids example_concatenated_inputs
      (example_model TDPO1) example_network tt false =
      inr (cm, rm, ck, rk, cl, rl) /\
    cm ++ rm = all_logps_margin /\
    ck ++ rk = all_position_kl /\
    cl ++ rl = vdetach all_logps /\
    length cm = 1%nat /\ length rm = 1%nat /\
    length ck = 1%nat /\ length rk = 1%nat /\
    length cl = 1%nat /\ length rl = 1%nat.
Proof.
  apply (forward_splits_at_chosen_count unit example_chosen_input_ids
           example_concatenated_inputs (example_model TDPO1)
           example_network tt false); reflexivity.
Defined.

Lemma forward_reference_values_only_witness :
  forward unit example_chosen_input_ids example_concatenated_inputs
    (example_model TDPO1) example_network tt false =
  forward unit example_chosen_input_ids example_concatenated_inputs
    (tracked_reference_model TDPO1) example_network tt false.
Proof.
  apply (forward_reference_values_only unit example_chosen_input_ids
           example_concatenated_inputs (example_model TDPO1)
           (tracked_reference_model TDPO1) example_network tt false);
    try reflexivity.
Defined.

Lemma get_batch_metrics_loss_positive_witness :
  exists x metrics,
    get_batch_metrics unit example_chosen_input_ids example_concatenated_inputs
      (example_model TDPO2) tt None = inr (Fin x, metrics) /\
    0 < primal x.
Proof.
  apply (get_batch_metrics_loss_positive unit example_chosen_input_ids
           example_concatenated_inputs (example_model TDPO2) tt None);
    try reflexivity.
  simpl. lia.
Defined.

Lemma get_batch_metrics_empty_batch_witness :
  exists loss_ metrics,
    get_batch_metrics unit empty_chosen_input_ids empty_concatenated_inputs
      (empty_model TDPO1) tt None = inr (loss_, metrics) /\
    is_nan loss_.
Proof.
  apply (get_batch_metrics_empty_batch unit empty_chosen_input_ids
           empty_concatenated_inputs (empty_model TDPO1) tt None);
    reflexivity.
Defined.


Lemma get_batch_metrics_rejects_unpaired_batch_witness :
  get_batch_metrics unit empty_chosen_input_ids example_concatenated_inputs
    (example_model TDPO1) tt None = inl RuntimeError.
Proof.
  apply (get_batch_metrics_rejects_unpaired_batch unit empty_chosen_input_ids
           example_concatenated_inputs (example_model TDPO1) tt None);
    try reflexivity; simpl; lia.
Defined.

Lemma get_batch_metrics_keys_witness :
  exists losses metrics,
    get_batch_metrics unit example_chosen_input_ids example_concatenated_inputs
      (example_model TDPO1) tt (Some "eval"%string) = inr (losses, metrics) /\
    List.map fst metrics =
      [key "rewards" "eval" "chosen"; key "rewards" "eval" "rejected";
       key "rewards" "eval" "accuracies"; key "rewards" "eval" "margins";
       key "logps" "eval" "rejected"; key "logps" "eval" "chosen";
       loss_key "eval"%string;
       key "kl" "eval" "chosen"; key "kl" "eval" "rejected";
       key "kl" "eval" "margin"] /\
    NoDup (List.map fst metrics) /\
    dict_get metrics (loss_key "eval"%string) =
      Some (Scalar (detach_quot losses)).
Proof.
  eexists _, _. split; [reflexivity |].
  apply (get_batch_metrics_keys unit example_chosen_input_ids
           example_concatenated_inputs (example_model TDPO1) tt
           (Some "eval"%string)).
  reflexivity.
Defined.
